(** * web3.storage API: the upload-listing handler [userUploadsGet]

    A shallow embedding of [packages/api/src/user.js], function
    [userUploadsGet], together with the JavaScript built-ins it calls
    ([parseInt], [isNaN], [encodeURIComponent], number-to-string conversion,
    [URLSearchParams.has]/[get], [Date.prototype.toISOString]), followed by
    the properties of its query-parameter validation and of the pagination
    link headers it emits.

    Conventions.
    - A JavaScript string is a [string]; each character is one code unit in
      the range 0..255.
    - A JavaScript number that is produced by [parseInt] or by integer
      arithmetic on such values is [NaN] or an exact integer [Num z].  The
      handler only lets integers of 1..1000 through, so every sum and
      difference it computes is exact in double precision as well; and
      comparing a parsed value against 0 and 1000 gives the same answer on
      the exact integer as on its nearest double, rounding being monotone.
    - [undefined] and [null] are [None].
    - The asynchronous store call is a step of a small state and error
      monad whose state is the log of the calls made to the store. *)

From Stdlib Require Import ZArith String Ascii List Lia Bool.
From stdpp Require Import gmap strings.
Import ListNotations.

Local Open Scope string_scope.
Local Open Scope Z_scope.

(** ** JavaScript built-ins *)

Module JS.

(** A number: [NaN] or an integer. *)
Inductive Number : Type :=
| NaN : Number
| Num (z : Z) : Number.

Definition isNaN (n : Number) : bool :=
  match n with NaN => true | Num _ => false end.

(** The code unit of a character. *)
Definition code (c : ascii) : Z := Z.of_N (N_of_ascii c).

Definition chr (z : Z) : ascii := ascii_of_N (Z.to_N z).

(** The double quote, as a one-character string. *)
Definition dquote : string := String (chr 34) EmptyString.

(** *** Number to string, for integers: [ToString(n)] and [`${n}`] *)

Definition digit_char (d : Z) : ascii := chr (48 + d).

Fixpoint digits_of (fuel : nat) (n : Z) (acc : string) : string :=
  let acc' := String (digit_char (n mod 10)) acc in
  match fuel with
  | O => acc'
  | S fuel' => if n <? 10 then acc' else digits_of fuel' (n / 10) acc'
  end.

(** Decimal digits of a natural number; [Z.log2 n] is at least the number
    of decimal digits of [n], less one. *)
Definition decimal (n : Z) : string :=
  digits_of (Z.to_nat (Z.log2 n)) n EmptyString.

Definition Z_toString (n : Z) : string :=
  if n <? 0 then String "-" (decimal (- n)) else decimal n.

(** Integers of magnitude 10^21 and more print in exponent form in
    JavaScript; the handler never prints one. *)
Definition Number_toString (n : Number) : string :=
  match n with
  | NaN => "NaN"
  | Num z => Z_toString z
  end.

(** *** Arithmetic, comparison and truthiness of numbers *)

Definition add (a b : Number) : Number :=
  match a, b with
  | Num x, Num y => Num (x + y)
  | _, _ => NaN
  end.

Definition sub (a b : Number) : Number :=
  match a, b with
  | Num x, Num y => Num (x - y)
  | _, _ => NaN
  end.

(** Any comparison with [NaN] is false. *)
Definition lt (a b : Number) : bool :=
  match a, b with
  | Num x, Num y => x <? y
  | _, _ => false
  end.

Definition le (a b : Number) : bool :=
  match a, b with
  | Num x, Num y => x <=? y
  | _, _ => false
  end.

Definition gt (a b : Number) : bool := lt b a.

(** [if (n)]: zero and [NaN] are falsy. *)
Definition truthy (n : Number) : bool :=
  match n with
  | NaN => false
  | Num z => negb (z =? 0)
  end.

(** [ToString] of a string or [null]. *)
Definition ToString (x : option string) : string :=
  match x with
  | Some s => s
  | None => "null"
  end.

(** *** [parseInt(string)], radix undefined *)

(** WhiteSpace and LineTerminator code units below 256: TAB, LF, VT, FF,
    CR, SP and NBSP. *)
Definition isWhiteSpace (c : ascii) : bool :=
  let k := code c in
  ((9 <=? k) && (k <=? 13)) || (k =? 32) || (k =? 160).

Fixpoint trimStart (s : string) : string :=
  match s with
  | String c r => if isWhiteSpace c then trimStart r else s
  | EmptyString => s
  end.

(** The value of a character as a digit, in any radix up to 36. *)
Definition digitValue (c : ascii) : option Z :=
  let k := code c in
  if (48 <=? k) && (k <=? 57) then Some (k - 48)
  else if (97 <=? k) && (k <=? 122) then Some (k - 87)
  else if (65 <=? k) && (k <=? 90) then Some (k - 55)
  else None.

Definition radixDigit (R : Z) (c : ascii) : option Z :=
  match digitValue c with
  | Some d => if d <? R then Some d else None
  | None => None
  end.

(** The integer written by the longest prefix of radix-[R] digits of [s];
    [acc] is [None] until a digit has been read. *)
Fixpoint parseDigits (R : Z) (s : string) (acc : option Z) : option Z :=
  match s with
  | String c r =>
      match radixDigit R c with
      | Some d =>
          parseDigits R r
            (Some (match acc with Some a => a * R + d | None => d end))
      | None => acc
      end
  | EmptyString => acc
  end.

Definition parseInt (input : string) : Number :=
  let s := trimStart input in
  let '(sign, s) :=
    match s with
    | String "-" r => (-1, r)
    | String "+" r => (1, r)
    | _ => (1, s)
    end in
  let '(R, s) :=
    match s with
    | String "0" (String "x" r) => (16, r)
    | String "0" (String "X" r) => (16, r)
    | _ => (10, s)
    end in
  match parseDigits R s None with
  | None => NaN
  | Some mathInt => Num (sign * mathInt)
  end.

(** *** [encodeURIComponent] *)

(** uriUnreserved: letters, decimal digits and [- _ . ! ~ * ' ( )]. *)
Definition uriUnreserved (c : ascii) : bool :=
  let k := code c in
  ((48 <=? k) && (k <=? 57)) || ((65 <=? k) && (k <=? 90))
  || ((97 <=? k) && (k <=? 122))
  || existsb (Z.eqb k) [45; 95; 46; 33; 126; 42; 39; 40; 41].

Definition hex_char (d : Z) : ascii :=
  if d <? 10 then chr (48 + d) else chr (55 + d).

Definition percent (byte : Z) (rest : string) : string :=
  String "%" (String (hex_char (byte / 16)) (String (hex_char (byte mod 16)) rest)).

(** A code unit below 128 is one UTF-8 octet, one of 128..255 is two. *)
Fixpoint encodeURIComponent (s : string) : string :=
  match s with
  | EmptyString => EmptyString
  | String c r =>
      let k := code c in
      if uriUnreserved c then String c (encodeURIComponent r)
      else if k <? 128 then percent k (encodeURIComponent r)
      else percent (192 + k / 64) (percent (128 + k mod 64) (encodeURIComponent r))
  end.

(** *** [URLSearchParams]: the name-value pairs of a query, in order *)

Definition URLSearchParams : Type := list (string * string).

Definition has (sp : URLSearchParams) (name : string) : bool :=
  existsb (fun kv => String.eqb (fst kv) name) sp.

(** The first value of [name], or [null]. *)
Fixpoint get (sp : URLSearchParams) (name : string) : option string :=
  match sp with
  | [] => None
  | (k, v) :: rest => if String.eqb k name then Some v else get rest name
  end.

(** [x || d] on a string or [null]: the empty string and [null] are falsy. *)
Definition or_else (x : option string) (d : string) : string :=
  match x with
  | None => d
  | Some EmptyString => d
  | Some s => s
  end.

(** *** [Date.prototype.toISOString], for a time value in milliseconds *)

Definition msPerDay : Z := 86400000.

(** Year, month and day of month of a day number counted from
    1970-01-01, in the proleptic Gregorian calendar. *)
Definition civil (day : Z) : Z * Z * Z :=
  let z := day + 719468 in
  let era := z / 146097 in
  let doe := z mod 146097 in
  let yoe := (doe - doe / 1460 + doe / 36524 - doe / 146096) / 365 in
  let doy := doe - (365 * yoe + yoe / 4 - yoe / 100) in
  let mp := (5 * doy + 2) / 153 in
  let d := doy - (153 * mp + 2) / 5 + 1 in
  let m := if mp <? 10 then mp + 3 else mp - 9 in
  let y := yoe + era * 400 + (if m <=? 2 then 1 else 0) in
  (y, m, d).

(** [n] in exactly [width] decimal digits (the low ones). *)
Fixpoint pad (width : nat) (n : Z) (acc : string) : string :=
  match width with
  | O => acc
  | S w => pad w (n / 10) (String (digit_char (n mod 10)) acc)
  end.

Definition toISOString (t : Z) : string :=
  let '(y, m, d) := civil (t / msPerDay) in
  let ms := t mod msPerDay in
  let year :=
    if (0 <=? y) && (y <=? 9999) then pad 4 y EmptyString
    else String (if y <? 0 then "-"%char else "+"%char) (pad 6 (Z.abs y) EmptyString) in
  year +:+ "-" +:+ pad 2 m EmptyString +:+ "-" +:+ pad 2 d EmptyString
  +:+ "T" +:+ pad 2 (ms / 3600000) EmptyString
  +:+ ":" +:+ pad 2 (ms / 60000 mod 60) EmptyString
  +:+ ":" +:+ pad 2 (ms / 1000 mod 60) EmptyString
  +:+ "." +:+ pad 3 (ms mod 1000) EmptyString +:+ "Z".

(** *** An instance of [Date.parse]

    [Date.parse] is fixed by the language for the Date Time String Format
    and left to the engine for every other string, so the handler below
    takes it as a parameter.  [Date_parse_ISO] is the instance the
    examples run: it reads the date-only form [YYYY-MM-DD] and the UTC
    form [YYYY-MM-DDTHH:mm:ss.sssZ] and finds every other string
    unparseable. *)

(** The number written by exactly [width] decimal digits, and the rest. *)
Fixpoint field (width : nat) (s : string) (acc : Z) : option (Z * string) :=
  match width with
  | O => Some (acc, s)
  | S w =>
      match s with
      | String c r =>
          match radixDigit 10 c with
          | Some d => field w r (acc * 10 + d)
          | None => None
          end
      | EmptyString => None
      end
  end.

Definition expect (c : ascii) (s : string) : option string :=
  match s with
  | String c' r => if Ascii.eqb c c' then Some r else None
  | EmptyString => None
  end.

Definition isLeap (y : Z) : bool :=
  ((y mod 4 =? 0) && negb (y mod 100 =? 0)) || (y mod 400 =? 0).

Definition daysInMonth (y m : Z) : Z :=
  if m =? 2 then (if isLeap y then 29 else 28)
  else if existsb (Z.eqb m) [4; 6; 9; 11] then 30 else 31.

(** The day number of a calendar date, counted from 1970-01-01. *)
Definition days_from_civil (y m d : Z) : Z :=
  let y' := if m <=? 2 then y - 1 else y in
  let era := y' / 400 in
  let yoe := y' mod 400 in
  let doy := (153 * (if 2 <? m then m - 3 else m + 9) + 2) / 5 + d - 1 in
  let doe := yoe * 365 + yoe / 4 - yoe / 100 + doy in
  era * 146097 + doe - 719468.

Definition parse_time (s : string) : option Z :=
  match s with
  | EmptyString => Some 0
  | _ =>
      s ← expect "T" s;
      '(h, s) ← field 2 s 0;
      s ← expect ":" s;
      '(mi, s) ← field 2 s 0;
      s ← expect ":" s;
      '(sec, s) ← field 2 s 0;
      s ← expect "." s;
      '(ms, s) ← field 3 s 0;
      s ← expect "Z" s;
      match s with
      | EmptyString =>
          if (h <? 24) && (mi <? 60) && (sec <? 60)
          then Some (h * 3600000 + mi * 60000 + sec * 1000 + ms)
          else None
      | _ => None
      end
  end.

Definition parse_ISO (s : string) : option Z :=
  '(y, s) ← field 4 s 0;
  s ← expect "-" s;
  '(m, s) ← field 2 s 0;
  s ← expect "-" s;
  '(d, s) ← field 2 s 0;
  t ← parse_time s;
  if (1 <=? m) && (m <=? 12) && (1 <=? d) && (d <=? daysInMonth y m)
  then Some (days_from_civil y m d * msPerDay + t)
  else None.

Definition Date_parse_ISO (s : string) : Number :=
  match parse_ISO s with
  | Some t => Num t
  | None => NaN
  end.

End JS.

(** ** The data of a request and of its response *)

(** [User], [Auth] and [AuthenticatedRequest] of the source's typedefs; the
    request carries its URL already parsed ([new URL(request.url)]). *)
Record User : Type := { _id : string; issuer : string }.

Record Auth : Type := { user : User }.

Record URL : Type := { pathname : string; searchParams : JS.URLSearchParams }.

Record Request : Type := { url : URL; auth : Auth }.

(** The options object handed to [env.db.listUploads]; [before] and [after]
    are [undefined] unless the request filters on them. *)
Record ListOpts : Type := {
  size : JS.Number;
  offset : JS.Number;
  before : option string;
  after : option string;
  sortBy : string;
  sortOrder : string
}.

(** A thrown value: an [Error] with its message and, when it was given one,
    its [status]. *)
Record JSError : Type := { message : string; status : option Z }.

(** [Object.assign(new Error(message), { status })] *)
Definition Error_with_status (msg : string) (st : Z) : JSError :=
  {| message := msg; status := Some st |}.

Definition RangeError (msg : string) : JSError :=
  {| message := msg; status := None |}.

Inductive Completion (A : Type) : Type :=
| Normal (a : A) : Completion A
| Throw (e : JSError) : Completion A.

Arguments Normal {A} a.
Arguments Throw {A} e.

(** The value of a response header as the handler sets it. *)
Inductive HeaderValue : Type :=
| HNum (n : JS.Number) : HeaderValue
| HStr (s : string) : HeaderValue.

(** A [Date] object: its time value. *)
Record Date : Type := { getTime : JS.Number }.

(** ** The handler monad: errors, and the log of the store calls *)

Definition StoreCall : Type := string * ListOpts.

Definition M (A : Type) : Type := list StoreCall -> Completion A * list StoreCall.

Definition ret {A : Type} (a : A) : M A := fun log => (Normal a, log).

Definition throw {A : Type} (e : JSError) : M A := fun log => (Throw e, log).

Definition bind {A B : Type} (m : M A) (k : A -> M B) : M B :=
  fun log =>
    match m log with
    | (Normal a, log') => k a log'
    | (Throw e, log') => (Throw e, log')
    end.

Notation "'let*' x := m 'in' k" := (bind m (fun x => k))
  (at level 10, x name, m at level 100, k at level 200).

(** [date.toISOString()]: a [RangeError] on an invalid date. *)
Definition Date_toISOString (d : Date) : M string :=
  match getTime d with
  | JS.NaN => throw (RangeError "Invalid time value")
  | JS.Num t => ret (JS.toISOString t)
  end.

Section Handler.

(** The upload records are the store's; the handler passes them on. *)
Context {Upload : Type}.

(** The engine's [Date.parse]. *)
Variable Date_parse : string -> JS.Number.

(** [new Date(value)] for a string or [null]. *)
Definition new_Date (value : option string) : Date :=
  match value with
  | Some s => {| getTime := Date_parse s |}
  | None => {| getTime := JS.Num 0 |}
  end.

(** What [listUploads] resolves to. *)
Record UploadPage : Type := { uploads : list Upload; count : JS.Number }.

(** [env.db]: the upload store; a rejected promise is a [Throw]. *)
Record Env : Type := {
  db_listUploads : string -> ListOpts -> Completion UploadPage
}.

(** [new JSONResponse(body, { headers })] *)
Record Response : Type := {
  body : list Upload;
  headers : gmap string HeaderValue
}.

Definition JSONResponse (b : list Upload) (h : gmap string HeaderValue) : Response :=
  {| body := b; headers := h |}.

(** [await env.db.listUploads(userId, opts)] *)
Definition await_listUploads (env : Env) (userId : string) (opts : ListOpts)
  : M UploadPage :=
  fun log => (db_listUploads env userId opts, (log ++ [(userId, opts)])%list).

(** The template literal of both link headers:
    [<${pathname}?size=${size}&offset=${encodeURIComponent(offset)}>; rel="next"] *)
Definition link_template (path : string) (sz off : JS.Number) : string :=
  "<" +:+ path +:+ "?size=" +:+ JS.Number_toString sz +:+ "&offset="
  +:+ JS.encodeURIComponent (JS.Number_toString off)
  +:+ ">; rel=" +:+ JS.dquote +:+ "next" +:+ JS.dquote.

Definition userUploadsGet (request : Request) (env : Env) : M Response :=
  let requestUrl := url request in
  let searchParams := searchParams requestUrl in

  let* size :=
    if JS.has searchParams "size" then
      let parsedSize := JS.parseInt (JS.ToString (JS.get searchParams "size")) in
      if JS.isNaN parsedSize || JS.le parsedSize (JS.Num 0)
         || JS.gt parsedSize (JS.Num 1000)
      then throw (Error_with_status "invalid page size" 400)
      else ret parsedSize
    else ret (JS.Num 25) in

  let* offset :=
    if JS.has searchParams "offset" then
      let parsedOffset := JS.parseInt (JS.ToString (JS.get searchParams "offset")) in
      if JS.isNaN parsedOffset || JS.le parsedOffset (JS.Num 0)
         || JS.gt parsedOffset (JS.Num 1000)
      then throw (Error_with_status "invalid page offset" 400)
      else ret parsedOffset
    else ret (JS.Num 0) in

  let* before :=
    if JS.has searchParams "before" then
      let parsedBefore := new_Date (JS.get searchParams "before") in
      if JS.isNaN (getTime parsedBefore)
      then throw (Error_with_status "invalid before date" 400)
      else let* iso := Date_toISOString parsedBefore in ret (Some iso)
    else ret None in

  let* after :=
    if JS.has searchParams "after" then
      let parsedAfter := new_Date (JS.get searchParams "after") in
      if JS.isNaN (getTime parsedAfter)
      then throw (Error_with_status "invalid after date" 400)
      else let* iso := Date_toISOString parsedAfter in ret (Some iso)
    else ret None in

  let sortBy := JS.or_else (JS.get searchParams "sortBy") "Date" in
  let sortOrder := JS.or_else (JS.get searchParams "sortOrder") "Desc" in

  let* data :=
    await_listUploads env (_id (user (auth request)))
      {| size := size; offset := offset; before := before; after := after;
         sortBy := sortBy; sortOrder := sortOrder |} in

  let headers : gmap string HeaderValue :=
    <["Offset" := HNum offset]>
      (<["Size" := HNum size]> (<["Count" := HNum (count data)]> ∅)) in

  let headers :=
    if JS.lt (JS.add (JS.Num (Z.of_nat (length (uploads data)))) offset) (count data)
    then
      let nextOffset := JS.add offset size in
      <["Next_link" := HStr (link_template (pathname requestUrl) size nextOffset)]> headers
    else headers in

  let headers :=
    if JS.truthy offset then
      let previousOffset := JS.sub offset size in
      <["Prev_link" := HStr (link_template (pathname requestUrl) size previousOffset)]> headers
    else headers in

  ret (JSONResponse (uploads data) headers).

End Handler.

Arguments UploadPage : clear implicits.
Arguments Env : clear implicits.
Arguments Response : clear implicits.

(** ** Vocabulary of the properties *)

(** The test both page parameters are rejected by:
    [isNaN(n) || n <= 0 || n > 1000]. *)
Definition rejected (n : JS.Number) : bool :=
  JS.isNaN n || JS.le n (JS.Num 0) || JS.gt n (JS.Num 1000).

(** The value of a link header to the page of [sz] records at [off]:
    [<path?size=sz&offset=off>; rel="next"]. *)
Definition page_link (path : string) (sz off : Z) : string :=
  "<" +:+ path +:+ "?size=" +:+ JS.Z_toString sz +:+ "&offset=" +:+ JS.Z_toString off
  +:+ ">; rel=" +:+ JS.dquote +:+ "next" +:+ JS.dquote.

(** A query string [name=value&name=value...] of pairs that need no
    escaping. *)
Fixpoint raw_query (sp : JS.URLSearchParams) : string :=
  match sp with
  | [] => ""
  | [(k, v)] => k +:+ "=" +:+ v
  | (k, v) :: rest => k +:+ "=" +:+ v +:+ "&" +:+ raw_query rest
  end.

(** The request of the same caller for [path?size=sz&offset=off], which is
    what following a link to that page sends. *)
Definition follow (request : Request) (sz off : Z) : Request :=
  {| url := {| pathname := pathname (url request);
               searchParams := [("size", JS.Z_toString sz); ("offset", JS.Z_toString off)] |};
     auth := auth request |}.

(** Every character of the string is left alone by [encodeURIComponent]. *)
Fixpoint all_unreserved (s : string) : bool :=
  match s with
  | EmptyString => true
  | String c r => JS.uriUnreserved c && all_unreserved r
  end.

(** A string of decimal digits, and one that is not empty and does not
    begin with a zero. *)
Fixpoint all_decimal (s : string) : bool :=
  match s with
  | EmptyString => true
  | String c r =>
      match JS.radixDigit 10 c with Some _ => all_decimal r | None => false end
  end.

Definition decimal_literal (s : string) : bool :=
  match s with
  | EmptyString => false
  | String c _ => negb (Ascii.eqb c "0") && all_decimal s
  end.

Section Rules.

Variable Date_parse : string -> JS.Number.

(** The four validation rules, each as the condition under which the
    handler's own test for the parameter fails. *)
Definition bad_size (sp : JS.URLSearchParams) : bool :=
  JS.has sp "size" && rejected (JS.parseInt (JS.ToString (JS.get sp "size"))).

Definition bad_offset (sp : JS.URLSearchParams) : bool :=
  JS.has sp "offset" && rejected (JS.parseInt (JS.ToString (JS.get sp "offset"))).

Definition bad_date (name : string) (sp : JS.URLSearchParams) : bool :=
  JS.has sp name && JS.isNaN (getTime (new_Date Date_parse (JS.get sp name))).

(** The page parameter [name] as the handler settles it. *)
Definition page_param (name : string) (default : Z) (sp : JS.URLSearchParams)
  : JS.Number :=
  if JS.has sp name then JS.parseInt (JS.ToString (JS.get sp name))
  else JS.Num default.

(** The date filter [name] as the handler settles it. *)
Definition date_param (name : string) (sp : JS.URLSearchParams) : option string :=
  if JS.has sp name then
    match getTime (new_Date Date_parse (JS.get sp name)) with
    | JS.Num t => Some (JS.toISOString t)
    | JS.NaN => None
    end
  else None.

(** The options of the store call of a request that passes validation. *)
Definition options_of (sp : JS.URLSearchParams) : ListOpts :=
  {| size := page_param "size" 25 sp;
     offset := page_param "offset" 0 sp;
     before := date_param "before" sp;
     after := date_param "after" sp;
     sortBy := JS.or_else (JS.get sp "sortBy") "Date";
     sortOrder := JS.or_else (JS.get sp "sortOrder") "Desc" |}.

(** The error of the first rule that fails, if one does. *)
Definition validation_error (sp : JS.URLSearchParams) : option JSError :=
  if bad_size sp then Some (Error_with_status "invalid page size" 400)
  else if bad_offset sp then Some (Error_with_status "invalid page offset" 400)
  else if bad_date "before" sp then Some (Error_with_status "invalid before date" 400)
  else if bad_date "after" sp then Some (Error_with_status "invalid after date" 400)
  else None.

End Rules.

(** The response to a validated request for [sz] records at [off], once the
    store has answered with [data]: the tail of the handler. *)
Definition response_of {Upload : Type} (path : string) (sz off : JS.Number)
    (data : UploadPage Upload) : Response Upload :=
  let h0 : gmap string HeaderValue :=
    <["Offset" := HNum off]>
      (<["Size" := HNum sz]> (<["Count" := HNum (count data)]> ∅)) in
  let h1 :=
    if JS.lt (JS.add (JS.Num (Z.of_nat (length (uploads data)))) off) (count data)
    then <["Next_link" := HStr (link_template path sz (JS.add off sz))]> h0
    else h0 in
  let h2 :=
    if JS.truthy off
    then <["Prev_link" := HStr (link_template path sz (JS.sub off sz))]> h1
    else h1 in
  JSONResponse (uploads data) h2.

(** The requests of the examples: a caller, a path, a store that holds
    [total] uploads and answers each call with a page of [n]. *)
Definition example_request (sp : JS.URLSearchParams) : Request :=
  {| url := {| pathname := "/user/uploads"; searchParams := sp |};
     auth := {| user := {| _id := "u1"; issuer := "did:ethr:0x01" |} |} |}.

Definition example_page (n : nat) (total : Z) : UploadPage unit :=
  {| uploads := repeat tt n; count := JS.Num total |}.

Definition example_env (n : nat) (total : Z) : Env unit :=
  {| db_listUploads := fun _ _ => Normal (example_page n total) |}.

(** The response of the example to a request settled to [sz] and [off], and
    the store log after it. *)
Definition example_response (sz off : Z) (n : nat) (total : Z) : Response unit :=
  response_of "/user/uploads" (JS.Num sz) (JS.Num off) (example_page n total).

Definition example_log (sp : JS.URLSearchParams) : list StoreCall :=
  [("u1", options_of JS.Date_parse_ISO sp)].

Definition run_example (sp : JS.URLSearchParams) (n : nat) (total : Z)
  : Completion (Response unit) * list StoreCall :=
  userUploadsGet JS.Date_parse_ISO (example_request sp) (example_env n total) [].

(** ** The other handlers of [user.js]

    [userLoginPost] with [loginOrRegister], [parseGitHub] and [parseMagic],
    [userTokensPost] and [userUploadsDelete].  What a request body parses
    to is a JSON value, read with JavaScript's dynamic property access; the
    calls to the Magic SDK, to the JWT helper and to the database are
    logged in the order they are made. *)

(** A JSON value; an object is the list of its own properties.  Numbers are
    integers here: the handlers only ever test one for being zero. *)
#[warnings="-register-all"] Inductive JSON : Type :=
| JNull : JSON
| JBool (b : bool) : JSON
| JNum (n : Z) : JSON
| JStr (s : string) : JSON
| JArr (items : list JSON) : JSON
| JObj (props : list (string * JSON)) : JSON.

(** A JavaScript value that came out of JSON: [None] is [undefined]. *)
Definition Value : Type := option JSON.

(** [ToBoolean]: [undefined], [null], [false], zero and the empty string are
    falsy; arrays and objects are truthy. *)
Definition ToBoolean (v : Value) : bool :=
  match v with
  | None => false
  | Some JNull => false
  | Some (JBool b) => b
  | Some (JNum n) => negb (n =? 0)
  | Some (JStr s) => negb (String.eqb s "")
  | Some (JArr _) => true
  | Some (JObj _) => true
  end.

(** [typeof v === 'string'] *)
Definition is_string (v : Value) : bool :=
  match v with
  | Some (JStr _) => true
  | _ => false
  end.

(** [a || b] on values. *)
Definition value_or (a b : Value) : Value := if ToBoolean a then a else b.

(** Truthiness of a [string | null]. *)
Definition string_truthy (s : option string) : bool :=
  match s with
  | None => false
  | Some s => negb (String.eqb s "")
  end.

(** The [TypeError] of reading a property of [undefined] or [null]; its
    message is the engine's. *)
Definition TypeError : JSError :=
  {| message := "Cannot read properties of undefined or null"; status := None |}.

(** [new Error(message)] *)
Definition Error (msg : string) : JSError := {| message := msg; status := None |}.

Fixpoint own_property (props : list (string * JSON)) (key : string) : Value :=
  match props with
  | [] => None
  | (k, v) :: rest => if String.eqb k key then Some v else own_property rest key
  end.

(** [v.key] and [const { key } = v], for the keys the handlers read
    ([type], [data], [oauth], [userInfo], [name], [picture], [userHandle]),
    none of which a string, a number, a boolean or an array has. *)
Definition get_prop (v : Value) (key : string) : Completion Value :=
  match v with
  | None => Throw TypeError
  | Some JNull => Throw TypeError
  | Some (JObj props) => Normal (own_property props key)
  | Some _ => Normal None
  end.

Definition cbind {A B : Type} (c : Completion A) (k : A -> Completion B) : Completion B :=
  match c with
  | Normal a => k a
  | Throw e => Throw e
  end.

Notation "'let?' x := c 'in' k" := (cbind c (fun x => k))
  (at level 10, x name, c at level 100, k at level 200).

(** [s.split(sep)] for a separator of one character. *)
Fixpoint split (sep : ascii) (s : string) : list string :=
  match s with
  | EmptyString => [EmptyString]
  | String c r =>
      if Ascii.eqb c sep then EmptyString :: split sep r
      else match split sep r with
           | piece :: pieces => String c piece :: pieces
           | [] => [String c EmptyString]
           end
  end.

(** [pieces.join(sep)] *)
Fixpoint join (sep : ascii) (pieces : list string) : string :=
  match pieces with
  | [] => EmptyString
  | [piece] => piece
  | piece :: rest => piece +:+ String sep (join sep rest)
  end.

Fixpoint has_char (c : ascii) (s : string) : bool :=
  match s with
  | EmptyString => false
  | String c' r => Ascii.eqb c' c || has_char c r
  end.

(** The three fields the handler takes out of Magic's user metadata, each a
    [string | null]. *)
Module Metadata.
Record t : Type := {
  issuer : option string;
  email : option string;
  publicAddress : option string
}.
End Metadata.

(** The record handed to [env.db.upsertUser]; [github] is [None] when the
    record has no such key. *)
Module Parsed.
Record t : Type := {
  name : Value;
  picture : Value;
  issuer : option string;
  email : option string;
  github : option Value;
  publicAddress : option string
}.
End Parsed.

(** The payload of the token: [{ sub, iss, iat, name }]. *)
Record JWTPayload : Type := {
  sub : string;
  iss : string;
  iat : Z;
  payload_name : Value
}.

(** The argument of [env.db.createKey]: [{ user, name, secret }]. *)
Record NewKey : Type := {
  key_user : string;
  key_name : Value;
  secret : string
}.

(** What the handlers read of a request: the outcome of [request.json()],
    the [Authorization] header, and, set by the layers before the handler,
    [request.auth] and [request.params.cid]. *)
Module Http.
Record request : Type := {
  json : Completion JSON;
  Authorization : option string;
  auth : Auth;
  cid : string
}.
End Http.

(** The calls a handler makes to its collaborators. *)
Inductive Call : Type :=
| ParseAuthorizationHeader (header : string) : Call
| TokenValidate (token : string) : Call
| GetMetadataByToken (token : string) : Call
| UpsertUser (parsed : Parsed.t) : Call
| JWTSign (payload : JWTPayload) (salt : string) : Call
| CreateKey (key : NewKey) : Call
| DeleteUpload (userId cid : string) : Call.

(** A computation that throws or returns, and logs its calls. *)
Definition Eff (A : Type) : Type := list Call -> Completion A * list Call.

Definition eff_ret {A : Type} (a : A) : Eff A := fun log => (Normal a, log).

Definition eff_throw {A : Type} (e : JSError) : Eff A := fun log => (Throw e, log).

Definition eff_lift {A : Type} (c : Completion A) : Eff A := fun log => (c, log).

(** A call, logged, with what it returned or threw. *)
Definition eff_call {A : Type} (call : Call) (outcome : Completion A) : Eff A :=
  fun log => (outcome, (log ++ [call])%list).

Definition eff_bind {A B : Type} (m : Eff A) (k : A -> Eff B) : Eff B :=
  fun log =>
    match m log with
    | (Normal a, log') => k a log'
    | (Throw e, log') => (Throw e, log')
    end.

Notation "'let!' x := m 'in' k" := (eff_bind m (fun x => k))
  (at level 10, x name, m at level 100, k at level 200).

(** A [JSONResponse]: its body and its status. *)
Record Reply (B : Type) : Type := { reply_body : B; reply_status : Z }.

Arguments reply_body {B} _.
Arguments reply_status {B} _.

(** [parseMagic({ issuer, email, publicAddress })] *)
Definition parseMagic (metadata : Metadata.t) : Completion Parsed.t :=
  match Metadata.email metadata with
  | None => Throw TypeError
  | Some email =>
      let name := option_map JStr (nth_error (split "@" email) 0) in
      Normal {| Parsed.name := name;
                Parsed.picture := Some (JStr "");
                Parsed.issuer := Metadata.issuer metadata;
                Parsed.email := Some email;
                Parsed.github := None;
                Parsed.publicAddress := Metadata.publicAddress metadata |}
  end.

(** [parseGitHub({ oauth }, { issuer, email, publicAddress })] *)
Definition parseGitHub (data : Value) (metadata : Metadata.t) : Completion Parsed.t :=
  let? oauth := get_prop data "oauth" in
  let? userInfo := get_prop oauth "userInfo" in
  let? name := get_prop userInfo "name" in
  let? userInfo' := get_prop oauth "userInfo" in
  let? picture := get_prop userInfo' "picture" in
  let? userHandle := get_prop oauth "userHandle" in
  Normal {| Parsed.name := value_or name (Some (JStr ""));
            Parsed.picture := value_or picture (Some (JStr ""));
            Parsed.issuer := Metadata.issuer metadata;
            Parsed.email := Metadata.email metadata;
            Parsed.github := Some userHandle;
            Parsed.publicAddress := Metadata.publicAddress metadata |}.

Section Account.

(** What [env.db.createKey] resolves to. *)
Context {Key : Type}.

(** [JWT.sign] of [utils/jwt.js], [JWT_ISSUER] of [constants.js] and
    [HTTPError] of [errors.js] are imported by [user.js]; [Date_now] is what
    [Date.now()] returns during the call. *)
Variable JWT_sign : JWTPayload -> string -> Completion string.
Variable JWT_ISSUER : string.
Variable HTTPError : string -> Z -> JSError.
Variable Date_now : Z.

(** [env]: the Magic SDK, the database and the salt. *)
Record AccountEnv : Type := {
  magic_utils_parseAuthorizationHeader : string -> Completion string;
  magic_token_validate : string -> Completion unit;
  magic_users_getMetadataByToken : string -> Completion Metadata.t;
  db_upsertUser : Parsed.t -> Completion User;
  db_createKey : NewKey -> Completion Key;
  db_deleteUpload : string -> string -> Completion Value;
  SALT : string
}.

Definition loginOrRegister (request : Http.request) (env : AccountEnv) : Eff User :=
  let! data := eff_lift (Http.json request) in
  let auth := JS.or_else (Http.Authorization request) "" in

  let! token :=
    eff_call (ParseAuthorizationHeader auth)
      (magic_utils_parseAuthorizationHeader env auth) in
  let! _ := eff_call (TokenValidate token) (magic_token_validate env token) in

  let! metadata :=
    eff_call (GetMetadataByToken token) (magic_users_getMetadataByToken env token) in
  if negb (string_truthy (Metadata.issuer metadata))
     || negb (string_truthy (Metadata.email metadata))
     || negb (string_truthy (Metadata.publicAddress metadata))
  then eff_throw (Error "missing required metadata")
  else
    let! type := eff_lift (get_prop (Some data) "type") in
    let! parsed :=
      eff_lift
        match type with
        | Some (JStr "github") =>
            let? data_data := get_prop (Some data) "data" in
            parseGitHub data_data metadata
        | _ => parseMagic metadata
        end in

    let! user := eff_call (UpsertUser parsed) (db_upsertUser env parsed) in
    eff_ret user.

Definition userLoginPost (request : Http.request) (env : AccountEnv) : Eff (Reply JSON) :=
  let! user := loginOrRegister request env in
  eff_ret {| reply_body := JObj [("issuer", JStr (issuer user))]; reply_status := 200 |}.

Definition userTokensPost (request : Http.request) (env : AccountEnv) : Eff (Reply Key) :=
  let! body := eff_lift (Http.json request) in
  let! name := eff_lift (get_prop (Some body) "name") in
  if negb (ToBoolean name) || negb (is_string name)
  then eff_throw (Error_with_status "invalid name" 400)
  else
    let _id := _id (user (Http.auth request)) in
    let issuer := issuer (user (Http.auth request)) in
    let sub := issuer in
    let iss := JWT_ISSUER in
    let payload := {| sub := sub; iss := iss; iat := Date_now; payload_name := name |} in
    let! secret := eff_call (JWTSign payload (SALT env)) (JWT_sign payload (SALT env)) in

    let key := {| key_user := _id; key_name := name; secret := secret |} in
    let! key := eff_call (CreateKey key) (db_createKey env key) in

    eff_ret {| reply_body := key; reply_status := 201 |}.

Definition userUploadsDelete (request : Http.request) (env : AccountEnv)
  : Eff (Reply Value) :=
  let cid := Http.cid request in
  let user := _id (user (Http.auth request)) in

  let! res := eff_call (DeleteUpload user cid) (db_deleteUpload env user cid) in
  if ToBoolean res
  then eff_ret {| reply_body := res; reply_status := 200 |}
  else eff_throw (HTTPError "Upload not found" 404).

End Account.

Arguments AccountEnv : clear implicits.

(** *** Vocabulary of the properties of the other handlers *)

(** The record a login body and complete metadata are parsed to: the part
    of [loginOrRegister] between the metadata check and the database call. *)
Definition parsed_of (data : JSON) (metadata : Metadata.t) : Completion Parsed.t :=
  let? type := get_prop (Some data) "type" in
  match type with
  | Some (JStr "github") =>
      let? data_data := get_prop (Some data) "data" in
      parseGitHub data_data metadata
  | _ => parseMagic metadata
  end.

(** Metadata with its three fields present and not empty. *)
Definition complete (metadata : Metadata.t) : bool :=
  string_truthy (Metadata.issuer metadata)
  && string_truthy (Metadata.email metadata)
  && string_truthy (Metadata.publicAddress metadata).

(** [undefined] or [null]. *)
Definition nullish (v : Value) : bool :=
  match v with
  | None => true
  | Some JNull => true
  | Some _ => false
  end.

(** The three calls to the Magic SDK of a login with header [header] that
    was parsed to [token]. *)
Definition magic_calls (header token : string) : list Call :=
  [ParseAuthorizationHeader header; TokenValidate token; GetMetadataByToken token].

(** The requests of the examples for the other handlers. *)
Definition example_caller : Auth :=
  {| user := {| _id := "u1"; issuer := "did:ethr:0x01" |} |}.

Definition example_http (body : JSON) : Http.request :=
  {| Http.json := Normal body; Http.Authorization := Some "Bearer t0k3n";
     Http.auth := example_caller; Http.cid := "bafy1" |}.

Definition example_metadata (email : string) : Metadata.t :=
  {| Metadata.issuer := Some "did:ethr:0x01"; Metadata.email := Some email;
     Metadata.publicAddress := Some "0x01" |}.

(** An environment whose Magic SDK strips [Bearer ] off the header and
    accepts every token, and whose database accepts every record. *)
Definition example_account (metadata : Metadata.t) (deleted : Value) : AccountEnv string :=
  {| magic_utils_parseAuthorizationHeader := fun header =>
       match header with
       | String "B" (String "e" (String "a" (String "r" (String "e"
           (String "r" (String " " token)))))) => Normal token
       | _ => Throw (Error "Expected argument to be a string in the `Bearer {token}` format.")
       end;
     magic_token_validate := fun _ => Normal tt;
     magic_users_getMetadataByToken := fun _ => Normal metadata;
     db_upsertUser := fun parsed =>
       Normal {| _id := "u1";
                 issuer := match Parsed.issuer parsed with Some i => i | None => "" end |};
     db_createKey := fun key => Normal ("key:" +:+ secret key);
     db_deleteUpload := fun _ _ => Normal deleted;
     SALT := "salt" |}.

Definition example_sign (payload : JWTPayload) (salt : string) : Completion string :=
  Normal ("signed:" +:+ sub payload +:+ ":" +:+ salt).

Definition example_HTTPError (msg : string) (st : Z) : JSError :=
  {| message := msg; status := Some st |}.

(** ** The blog subscription form ([subscribe.js])

    The state of the [Subscribe] component and its submit handler.  A
    handler runs on the state of the render it was made in; what it does is
    the list of its effects, in order: the state setters it calls, the
    request it sends, what it writes to the console. *)
Module Subscribe.

Record State : Type := {
  status : string;
  errorMsg : string;
  disabled : bool;
  email : string
}.

(** The four [useState] defaults. *)
Definition initial : State :=
  {| status := ""; errorMsg := ""; disabled := false; email := "" |}.

(** The options of the [fetch]: the method, the [Content-Type] header and
    the object that is stringified to the body, [{ email }]. *)
Record FetchInit : Type := {
  method : string;
  Content_Type : string;
  body_email : string
}.

Inductive Effect : Type :=
| PreventDefault : Effect
| SetStatus (s : string) : Effect
| SetErrorMsg (m : string) : Effect
| SetDisabled (b : bool) : Effect
| SetEmail (v : string) : Effect
| Fetch (url : string) (init : FetchInit) : Effect
| ConsoleError (m : string) : Effect.

Section Component.

(** [constants.API], and a [fetch] that resolves to the status of the
    response or rejects. *)
Variable API : string.
Variable fetch : string -> FetchInit -> Completion Z.

Definition subscribe (st : State) : list Effect * Completion unit :=
  let subscribeURL := "/blog/subscription" in
  let init := {| method := "POST"; Content_Type := "application/json";
                 body_email := email st |} in
  let sent := [Fetch (API +:+ subscribeURL) init] in
  match fetch (API +:+ subscribeURL) init with
  | Throw e => (sent, Throw e)
  | Normal res_status =>
      if negb (res_status =? 200) && negb (res_status =? 202)
      then (sent, Throw (Error ""))
      else (sent, Normal tt)
  end.

Definition onSubmit (st : State) : list Effect :=
  PreventDefault ::
  if String.eqb (status st) "pending" then []
  else
    SetStatus "pending" ::
    match subscribe st with
    | (sent, Normal _) => (sent ++ [SetStatus "success"])%list
    | (sent, Throw _) =>
        (sent ++ [ConsoleError "ERROR SUBSCRIBING USER";
                  SetDisabled false;
                  SetStatus "error";
                  SetErrorMsg "Something went wrong. Please try again later."])%list
    end.

End Component.

(** The [onChange] of the email input. *)
Definition onChange (value : string) : list Effect := [SetEmail value].

(** What an effect does to the state. *)
Definition apply (st : State) (ef : Effect) : State :=
  match ef with
  | SetStatus s =>
      {| status := s; errorMsg := errorMsg st; disabled := disabled st; email := email st |}
  | SetErrorMsg m =>
      {| status := status st; errorMsg := m; disabled := disabled st; email := email st |}
  | SetDisabled b =>
      {| status := status st; errorMsg := errorMsg st; disabled := b; email := email st |}
  | SetEmail v =>
      {| status := status st; errorMsg := errorMsg st; disabled := disabled st; email := v |}
  | PreventDefault => st
  | Fetch _ _ => st
  | ConsoleError _ => st
  end.

Definition after (st : State) (effects : list Effect) : State :=
  fold_left apply effects st.

(** What a user does: submits the form, the request then being answered as
    [fetch] says, or edits the email. *)
Inductive Action : Type :=
| Submit (fetch : string -> FetchInit -> Completion Z) : Action
| Change (value : string) : Action.

Definition handle (API : string) (st : State) (a : Action) : State :=
  match a with
  | Submit fetch => after st (onSubmit API fetch st)
  | Change value => after st (onChange value)
  end.

Definition failure_message : string := "Something went wrong. Please try again later.".

End Subscribe.

(** ** The accordion ([accordion.js])

    The state of the [Accordion] component and its toggle,
    [setActiveSections].  The ids of the sections are strings.  [active] is
    [false], one id, or an array of ids. *)
Module Accordion.

Inductive Active : Type :=
| AFalse : Active
| AString (id : string) : Active
| AArray (ids : list string) : Active.

Record Props : Type := { multiple : bool }.

Record State : Type := { active : Active; childCount : Z }.

(** An update handed to [setState]: an object to merge, or an updater
    function of the state before. *)
Inductive Update : Type :=
| Merge (a : Active) : Update
| Updater (f : Active -> Completion Active) : Update.

(** The [TypeError] of calling or iterating what is not a function or an
    iterable; its message is the engine's. *)
Definition NotCallable : JSError :=
  {| message := "is not a function or is not iterable"; status := None |}.

(** The constructor reads [this.multiple], which a component does not have,
    and not [this.props.multiple]: the condition is [undefined]. *)
Definition this_multiple (props : Props) : Value := None.

Definition constructor (props : Props) : State :=
  {| active := if ToBoolean (this_multiple props) then AArray [] else AFalse;
     childCount := 0 |}.

(** [s.includes(sub)] on strings. *)
Fixpoint String_includes (s sub : string) : bool :=
  String.prefix sub s
  || match s with
     | EmptyString => false
     | String _ r => String_includes r sub
     end.

(** [[...s]] on a string: its characters, each a string. *)
Fixpoint spread (s : string) : list string :=
  match s with
  | EmptyString => []
  | String c r => String c EmptyString :: spread r
  end.

(** [active.includes(id)] *)
Definition includes (a : Active) (id : string) : Completion bool :=
  match a with
  | AFalse => Throw NotCallable
  | AString s => Normal (String_includes s id)
  | AArray ids => Normal (existsb (String.eqb id) ids)
  end.

(** [({ active }) => ({ active: active.filter((_id) => _id !== id) })] *)
Definition remove (id : string) (a : Active) : Completion Active :=
  match a with
  | AArray ids => Normal (AArray (List.filter (fun _id => negb (String.eqb _id id)) ids))
  | _ => Throw NotCallable
  end.

(** [({ active }) => ({ active: [...active, id] })] *)
Definition add (id : string) (a : Active) : Completion Active :=
  match a with
  | AArray ids => Normal (AArray (ids ++ [id]))
  | AString s => Normal (AArray (spread s ++ [id]))
  | AFalse => Throw NotCallable
  end.

(** [a === id] *)
Definition is_id (a : Active) (id : string) : bool :=
  match a with
  | AString s => String.eqb s id
  | _ => false
  end.

(** [setActiveSections(id)]: what it writes to the console, and the updates
    it hands to [setState] or the error it throws. *)
Definition setActiveSections (props : Props) (st : State) (id : string)
  : list string * Completion (list Update) :=
  ([id],
   if multiple props then
     let? included := includes (active st) id in
     if included then Normal [Updater (remove id)]
     else Normal [Updater (add id)]
   else
     if is_id (active st) id then Normal [Merge AFalse]
     else Normal [Merge (AString id)]).

(** React applying the updates, in order. *)
Fixpoint flush (st : State) (updates : list Update) : Completion State :=
  match updates with
  | [] => Normal st
  | Merge a :: rest => flush {| active := a; childCount := childCount st |} rest
  | Updater f :: rest =>
      let? a := f (active st) in
      flush {| active := a; childCount := childCount st |} rest
  end.

(** A toggle, and the state after it. *)
Definition toggle (props : Props) (st : State) (id : string) : Completion State :=
  let? updates := snd (setActiveSections props st id) in
  flush st updates.

(** Toggles one after the other, as long as none throws. *)
Fixpoint toggles (props : Props) (st : State) (ids : list string) : Completion State :=
  match ids with
  | [] => Normal st
  | id :: rest =>
      let? st' := toggle props st id in
      toggles props st' rest
  end.

End Accordion.

(** ** The built-ins on examples *)

Example Date_parse_ISO_examples :
  JS.Date_parse_ISO "1970-01-01" = JS.Num 0 /\
  JS.Date_parse_ISO "2021-01-01" = JS.Num 1609459200000 /\
  JS.Date_parse_ISO "2000-02-29T12:34:56.789Z" = JS.Num 951827696789 /\
  JS.Date_parse_ISO "2001-02-29" = JS.NaN /\
  JS.Date_parse_ISO "not-a-date" = JS.NaN /\
  JS.Date_parse_ISO "" = JS.NaN.
Proof. vm_compute. repeat split. Qed.

Example toISOString_epoch : JS.toISOString 0 = "1970-01-01T00:00:00.000Z".
Proof. reflexivity. Qed.

Example toISOString_2021 : JS.toISOString 1609459200000 = "2021-01-01T00:00:00.000Z".
Proof. vm_compute. reflexivity. Qed.

Example toISOString_leap : JS.toISOString 951827696789 = "2000-02-29T12:34:56.789Z".
Proof. vm_compute. reflexivity. Qed.

Example toISOString_before_epoch : JS.toISOString (-1) = "1969-12-31T23:59:59.999Z".
Proof. vm_compute. reflexivity. Qed.

Example toISOString_max : JS.toISOString 8640000000000000 = "+275760-09-13T00:00:00.000Z".
Proof. vm_compute. reflexivity. Qed.

Example toISOString_min : JS.toISOString (-8640000000000000) = "-271821-04-20T00:00:00.000Z".
Proof. vm_compute. reflexivity. Qed.

Example parseInt_examples :
  JS.parseInt "25" = JS.Num 25 /\ JS.parseInt "  -7" = JS.Num (-7) /\
  JS.parseInt "0x1f" = JS.Num 31 /\ JS.parseInt "abc" = JS.NaN /\
  JS.parseInt "" = JS.NaN /\ JS.parseInt "12px" = JS.Num 12 /\
  JS.parseInt "+" = JS.NaN /\ JS.parseInt "0x" = JS.NaN /\
  JS.parseInt "1e3" = JS.Num 1 /\ JS.parseInt "-0" = JS.Num 0.
Proof. vm_compute. repeat split. Qed.

Example Number_toString_examples :
  JS.Z_toString 0 = "0" /\ JS.Z_toString 25 = "25" /\
  JS.Z_toString (-20) = "-20" /\ JS.Z_toString 2000 = "2000" /\
  JS.Z_toString 1000000 = "1000000" /\ JS.Z_toString 9 = "9" /\
  JS.Z_toString 10 = "10" /\ JS.Z_toString 99999 = "99999".
Proof. vm_compute. repeat split. Qed.

Example encodeURIComponent_examples :
  JS.encodeURIComponent "a b&c=-1" = "a%20b%26c%3D-1" /\
  JS.encodeURIComponent (String (JS.chr 233) EmptyString) = "%C3%A9".
Proof. vm_compute. repeat split. Qed.

(** ** The handler on examples *)

(** A request with no parameters, against a store that holds 30 uploads:
    the store is asked for 25 records at offset 0, and the response carries
    the count, the size, the offset and a next link, and no previous link. *)
Example first_page_of_thirty :
  exists resp : Response unit,
    run_example [] 25 30
    = (Normal resp,
       [("u1", {| size := JS.Num 25; offset := JS.Num 0; before := None;
                  after := None; sortBy := "Date"; sortOrder := "Desc" |})])
    /\ headers resp !! "Count" = Some (HNum (JS.Num 30))
    /\ headers resp !! "Size" = Some (HNum (JS.Num 25))
    /\ headers resp !! "Offset" = Some (HNum (JS.Num 0))
    /\ headers resp !! "Next_link"
       = Some (HStr ("</user/uploads?size=25&offset=25>; rel="
                     +:+ JS.dquote +:+ "next" +:+ JS.dquote))
    /\ headers resp !! "Prev_link" = None.
Proof.
  exists (example_response 25 0 25 30). vm_compute. repeat split.
Qed.

(** The last page has no next link. *)
Example last_page_of_thirty :
  exists resp : Response unit,
    fst (run_example [("size", "10"); ("offset", "20")] 10 30) = Normal resp
    /\ headers resp !! "Next_link" = None
    /\ headers resp !! "Prev_link"
       = Some (HStr ("</user/uploads?size=10&offset=10>; rel="
                     +:+ JS.dquote +:+ "next" +:+ JS.dquote)).
Proof.
  exists (example_response 10 20 10 30). vm_compute. repeat split.
Qed.

(** A store failure is thrown on, after the call. *)
Example store_failure_propagates :
  userUploadsGet (Upload := unit) JS.Date_parse_ISO (example_request [])
    {| db_listUploads := fun _ _ => Throw {| message := "db down"; status := None |} |} []
  = (Throw {| message := "db down"; status := None |}, example_log []).
Proof. vm_compute. reflexivity. Qed.

(** ** The handler, step by step *)

Section Run.

Context {Upload : Type}.
Variable Date_parse : string -> JS.Number.

Implicit Types (request : Request) (env : Env Upload) (log : list StoreCall).

Lemma has_get_Some (sp : JS.URLSearchParams) (name : string) :
  JS.has sp name = true -> exists v, JS.get sp name = Some v.
Proof.
  induction sp as [|[k v] rest IH]; simpl; [discriminate|].
  destruct (String.eqb k name); simpl; eauto.
Qed.

Lemma has_get_None (sp : JS.URLSearchParams) (name : string) :
  JS.has sp name = false -> JS.get sp name = None.
Proof.
  induction sp as [|[k v] rest IH]; simpl; [reflexivity|].
  destruct (String.eqb k name); simpl; [discriminate|auto].
Qed.

(** The handler throws the error of the first rule that fails without
    calling the store; otherwise it calls the store once, with the
    options settled from the query, and answers from what the store
    returns. *)
Lemma userUploadsGet_run request env log :
  userUploadsGet Date_parse request env log =
  let sp := searchParams (url request) in
  let userId := _id (user (auth request)) in
  match validation_error Date_parse sp with
  | Some e => (Throw e, log)
  | None =>
      let opts := options_of Date_parse sp in
      match db_listUploads env userId opts with
      | Throw e => (Throw e, (log ++ [(userId, opts)])%list)
      | Normal data =>
          (Normal (response_of (pathname (url request)) (size opts) (offset opts) data),
           (log ++ [(userId, opts)])%list)
      end
  end.
Proof.
  unfold userUploadsGet, validation_error, options_of, bad_size, bad_offset,
    bad_date, page_param, date_param, rejected, response_of, Date_toISOString,
    await_listUploads, bind, ret, throw.
  cbv zeta.
  set (sp := searchParams (url request)).
  destruct (JS.has sp "size"); simpl;
    [destruct (_ || _ || _); simpl; [reflexivity|]|];
    (destruct (JS.has sp "offset"); simpl;
      [destruct (_ || _ || _); simpl; [reflexivity|]|]);
    (destruct (JS.has sp "before"); simpl;
      [destruct (getTime (new_Date Date_parse (JS.get sp "before"))); simpl;
        [reflexivity|]|]);
    (destruct (JS.has sp "after"); simpl;
      [destruct (getTime (new_Date Date_parse (JS.get sp "after"))); simpl;
        [reflexivity|]|]);
    destruct (db_listUploads env _ _); reflexivity.
Qed.

End Run.

(** ** Numbers the handler lets through *)

Lemma rejected_false (n : JS.Number) :
  rejected n = false <-> exists z, n = JS.Num z /\ 1 <= z <= 1000.
Proof.
  unfold rejected, JS.gt. destruct n as [|z]; simpl.
  - split; [discriminate|]. intros (z & Hz & _). discriminate.
  - split.
    + intros H. apply orb_false_iff in H as [H1 H2].
      apply Z.leb_gt in H1. apply Z.ltb_ge in H2. exists z. split; [reflexivity|lia].
    + intros (z' & Hz & Hr). injection Hz as <-.
      apply orb_false_iff. split; [apply Z.leb_gt|apply Z.ltb_ge]; lia.
Qed.

Lemma rejected_true (n : JS.Number) :
  rejected n = true <->
  n = JS.NaN \/ exists z, n = JS.Num z /\ (z <= 0 \/ 1000 < z).
Proof.
  unfold rejected, JS.gt. destruct n as [|z]; simpl.
  - split; [auto|reflexivity].
  - split.
    + intros H. right. exists z. split; [reflexivity|].
      apply orb_true_iff in H as [H|H]; [apply Z.leb_le in H|apply Z.ltb_lt in H]; lia.
    + intros [H|(z' & Hz & Hr)]; [discriminate|]. injection Hz as <-.
      apply orb_true_iff. destruct Hr; [left; apply Z.leb_le|right; apply Z.ltb_lt]; lia.
Qed.

(** ** Printing an integer, and escaping what was printed *)

Lemma append_assoc (a b c : string) : (a +:+ b) +:+ c = a +:+ (b +:+ c).
Proof.
  induction a as [|x a IH]; [reflexivity|].
  change (String x ((a +:+ b) +:+ c) = String x (a +:+ b +:+ c)).
  f_equal. exact IH.
Qed.

Lemma digit_char_unreserved (d : Z) :
  0 <= d < 10 -> JS.uriUnreserved (JS.digit_char d) = true.
Proof.
  intros H.
  assert (d = 0 \/ d = 1 \/ d = 2 \/ d = 3 \/ d = 4 \/ d = 5 \/ d = 6 \/ d = 7
          \/ d = 8 \/ d = 9) as Hd by lia.
  repeat (destruct Hd as [->|Hd]; [reflexivity|]). now subst.
Qed.

Lemma digits_of_unreserved (fuel : nat) :
  forall (n : Z) (acc : string),
    all_unreserved acc = true ->
    all_unreserved (JS.digits_of fuel n acc) = true.
Proof.
  induction fuel as [|fuel IH]; intros n acc Hacc; simpl.
  - rewrite digit_char_unreserved by (apply Z.mod_pos_bound; lia). exact Hacc.
  - assert (all_unreserved (String (JS.digit_char (n mod 10)) acc) = true) as Hstep.
    { simpl. rewrite digit_char_unreserved by (apply Z.mod_pos_bound; lia). exact Hacc. }
    destruct (n <? 10); [exact Hstep|]. apply IH, Hstep.
Qed.

Lemma Z_toString_unreserved (z : Z) : all_unreserved (JS.Z_toString z) = true.
Proof.
  unfold JS.Z_toString, JS.decimal.
  destruct (z <? 0); [change (all_unreserved (String "-" ?s)) with (all_unreserved s)|];
    now apply digits_of_unreserved.
Qed.

Lemma encodeURIComponent_unreserved (s : string) :
  all_unreserved s = true -> JS.encodeURIComponent s = s.
Proof.
  induction s as [|c r IH]; simpl; [reflexivity|].
  intros H. apply andb_true_iff in H as [Hc Hr].
  rewrite Hc. now rewrite IH.
Qed.

(** The handler's template prints the link to the page it names:
    escaping the offset changes nothing. *)
Lemma link_template_page_link (path : string) (sz off : Z) :
  link_template path (JS.Num sz) (JS.Num off) = page_link path sz off.
Proof.
  unfold link_template, page_link. simpl.
  now rewrite encodeURIComponent_unreserved by apply Z_toString_unreserved.
Qed.

(** The link is the URL [path?query] of the request that follows it. *)
Lemma page_link_follow (request : Request) (sz off : Z) :
  page_link (pathname (url request)) sz off =
  "<" +:+ pathname (url (follow request sz off)) +:+ "?"
  +:+ raw_query (searchParams (url (follow request sz off)))
  +:+ ">; rel=" +:+ JS.dquote +:+ "next" +:+ JS.dquote.
Proof.
  unfold page_link, follow. simpl. do 2 f_equal.
  rewrite !append_assoc. reflexivity.
Qed.

(** ** What a request that passes validation is queried with *)

Section Validated.

Context {Upload : Type}.
Variable Date_parse : string -> JS.Number.

Implicit Types (request : Request) (env : Env Upload) (log : list StoreCall)
  (sp : JS.URLSearchParams).

Lemma get_Some_has sp (name v : string) :
  JS.get sp name = Some v -> JS.has sp name = true.
Proof.
  destruct (JS.has sp name) eqn:H; [reflexivity|].
  apply has_get_None in H. congruence.
Qed.

Lemma get_None_has sp (name : string) :
  JS.get sp name = None -> JS.has sp name = false.
Proof.
  destruct (JS.has sp name) eqn:H; [|reflexivity].
  apply has_get_Some in H as [v Hv]. congruence.
Qed.

Lemma validation_error_None sp :
  validation_error Date_parse sp = None <->
  bad_size sp = false /\ bad_offset sp = false
  /\ bad_date Date_parse "before" sp = false
  /\ bad_date Date_parse "after" sp = false.
Proof.
  unfold validation_error.
  destruct (bad_size sp), (bad_offset sp), (bad_date Date_parse "before" sp),
    (bad_date Date_parse "after" sp); split; try discriminate; intuition discriminate.
Qed.

Lemma validation_error_status sp (e : JSError) :
  validation_error Date_parse sp = Some e -> status e = Some 400.
Proof.
  unfold validation_error.
  destruct (bad_size sp), (bad_offset sp), (bad_date Date_parse "before" sp),
    (bad_date Date_parse "after" sp); intros [= <-]; reflexivity.
Qed.

(** A page parameter that is not rejected is its default when absent and
    an integer of 1..1000 when present. *)
Lemma page_param_range sp (name : string) (default : Z) :
  JS.has sp name && rejected (JS.parseInt (JS.ToString (JS.get sp name))) = false ->
  exists z, page_param name default sp = JS.Num z
    /\ (JS.has sp name = true -> 1 <= z <= 1000)
    /\ (JS.has sp name = false -> z = default).
Proof.
  unfold page_param. destruct (JS.has sp name); simpl.
  - intros H. apply rejected_false in H as (z & -> & Hz).
    exists z. repeat split; [lia|lia|discriminate].
  - intros _. exists default. repeat split; discriminate.
Qed.

Lemma date_param_settled sp (name : string) :
  bad_date Date_parse name sp = false ->
  (forall v, JS.get sp name = Some v ->
     exists t, Date_parse v = JS.Num t
       /\ date_param Date_parse name sp = Some (JS.toISOString t))
  /\ (JS.get sp name = None -> date_param Date_parse name sp = None).
Proof.
  unfold bad_date, date_param. intros H. split.
  - intros v Hv. rewrite (get_Some_has _ _ _ Hv), Hv in *. simpl in *.
    destruct (Date_parse v) as [|t]; [discriminate|]. now exists t.
  - intros Hn. now rewrite (get_None_has _ _ Hn).
Qed.

Lemma log_grows log (c : StoreCall) : (log ++ [c])%list <> log.
Proof.
  intros H. apply (f_equal (@length _)) in H.
  rewrite length_app in H. simpl in H. lia.
Qed.

(** *** The headers of the response *)

Lemma response_of_Count (path : string) (sz off : JS.Number) (data : UploadPage Upload) :
  headers (response_of path sz off data) !! "Count" = Some (HNum (count data))
  /\ headers (response_of path sz off data) !! "Size" = Some (HNum sz)
  /\ headers (response_of path sz off data) !! "Offset" = Some (HNum off)
  /\ body (response_of path sz off data) = uploads data.
Proof.
  unfold response_of. cbv zeta.
  destruct (JS.lt _ _), (JS.truthy off); cbn [headers body JSONResponse];
    repeat split; now simplify_map_eq.
Qed.

Lemma response_of_Next_link (path : string) (sz off : Z) (data : UploadPage Upload) :
  headers (response_of path (JS.Num sz) (JS.Num off) data) !! "Next_link" =
  if JS.lt (JS.Num (Z.of_nat (length (uploads data)) + off)) (count data)
  then Some (HStr (page_link path sz (off + sz)))
  else None.
Proof.
  unfold response_of. cbn [JS.add JS.sub JS.truthy]. cbv zeta.
  rewrite !link_template_page_link.
  destruct (JS.lt _ _), (negb (off =? 0)); cbn [headers JSONResponse];
    now simplify_map_eq.
Qed.

Lemma response_of_Prev_link (path : string) (sz off : Z) (data : UploadPage Upload) :
  headers (response_of path (JS.Num sz) (JS.Num off) data) !! "Prev_link" =
  if negb (off =? 0)
  then Some (HStr (page_link path sz (off - sz)))
  else None.
Proof.
  unfold response_of. cbn [JS.add JS.sub JS.truthy]. cbv zeta.
  rewrite !link_template_page_link.
  destruct (JS.lt _ _), (negb (off =? 0)); cbn [headers JSONResponse];
    now simplify_map_eq.
Qed.

(** *** A successful run, taken apart *)

Lemma userUploadsGet_Normal request env log (resp : Response Upload) log' :
  userUploadsGet Date_parse request env log = (Normal resp, log') ->
  let sp := searchParams (url request) in
  let opts := options_of Date_parse sp in
  exists (sz off : Z) (data : UploadPage Upload),
    validation_error Date_parse sp = None
    /\ size opts = JS.Num sz /\ 1 <= sz <= 1000
    /\ (JS.has sp "size" = false -> sz = 25)
    /\ offset opts = JS.Num off /\ 0 <= off <= 1000
    /\ (JS.has sp "offset" = false -> off = 0)
    /\ db_listUploads env (_id (user (auth request))) opts = Normal data
    /\ log' = (log ++ [(_id (user (auth request)), opts)])%list
    /\ resp = response_of (pathname (url request)) (JS.Num sz) (JS.Num off) data.
Proof.
  rewrite userUploadsGet_run. cbv zeta.
  destruct (validation_error Date_parse _) eqn:Hv; [discriminate|].
  destruct (db_listUploads env _ _) as [data|e] eqn:Hdb; [|discriminate].
  intros [= <- <-].
  apply validation_error_None in Hv as (Hs & Ho & _ & _).
  apply (page_param_range _ "size" 25) in Hs as (sz & Hsz & Hs1 & Hs2).
  apply (page_param_range _ "offset" 0) in Ho as (off & Hoff & Ho1 & Ho2).
  exists sz, off, data. simpl. rewrite Hsz, Hoff.
  repeat split; try assumption; try reflexivity;
    destruct (JS.has _ "size"), (JS.has _ "offset"); lia.
Qed.

End Validated.

(** ** The pagination links *)

Section Links.

Context {Upload : Type}.
Variable Date_parse : string -> JS.Number.

Implicit Types (request : Request) (env : Env Upload) (log : list StoreCall).

Lemma lt_Num (a : Z) (n : JS.Number) :
  JS.lt (JS.Num a) n = true <-> exists c, n = JS.Num c /\ a < c.
Proof.
  destruct n as [|c]; simpl.
  - split; [discriminate|]. intros (c & Hc & _). discriminate.
  - rewrite Z.ltb_lt. split; [eauto|]. intros (c' & [= <-] & H). exact H.
Qed.

(** The page a successful run answers with: the call it made, what the
    store returned, and every header of the response. *)
Lemma success_page request env log (resp : Response Upload) log' :
  userUploadsGet Date_parse request env log = (Normal resp, log') ->
  exists (sz off : Z) (opts : ListOpts) (data : UploadPage Upload),
    log' = (log ++ [(_id (user (auth request)), opts)])%list
    /\ db_listUploads env (_id (user (auth request))) opts = Normal data
    /\ size opts = JS.Num sz /\ 1 <= sz <= 1000
    /\ offset opts = JS.Num off /\ 0 <= off <= 1000
    /\ body resp = uploads data
    /\ headers resp !! "Count" = Some (HNum (count data))
    /\ headers resp !! "Size" = Some (HNum (JS.Num sz))
    /\ headers resp !! "Offset" = Some (HNum (JS.Num off))
    /\ headers resp !! "Next_link" =
        (if JS.lt (JS.Num (Z.of_nat (length (uploads data)) + off)) (count data)
         then Some (HStr (page_link (pathname (url request)) sz (off + sz)))
         else None)
    /\ headers resp !! "Prev_link" =
        (if negb (off =? 0)
         then Some (HStr (page_link (pathname (url request)) sz (off - sz)))
         else None).
Proof.
  intros H. apply userUploadsGet_Normal in H. cbv zeta in H.
  destruct H as (sz & off & data & _ & Hsz & Hs & _ & Hoff & Ho & _ & Hdb & -> & ->).
  exists sz, off, (options_of Date_parse (searchParams (url request))), data.
  destruct (response_of_Count (pathname (url request)) (JS.Num sz) (JS.Num off) data)
    as (Hc1 & Hc2 & Hc3 & Hc4).
  rewrite response_of_Next_link, response_of_Prev_link.
  repeat split; try assumption; lia.
Qed.

End Links.

(** C1. For every successful store result, the response of [userUploadsGet]
    has a [Next_link] header if and only if the effective offset plus the
    number of uploads returned is below the store's count, and the header
    then is the link to the page at the offset plus the size, of the same
    size. *)
Theorem next_link_emitted_iff {Upload : Type} (Date_parse : string -> JS.Number)
    (request : Request) (env : Env Upload) (log : list StoreCall)
    (resp : Response Upload) (log' : list StoreCall) :
  userUploadsGet Date_parse request env log = (Normal resp, log') ->
  exists (sz off : Z) (opts : ListOpts) (data : UploadPage Upload),
    log' = (log ++ [(_id (user (auth request)), opts)])%list
    /\ db_listUploads env (_id (user (auth request))) opts = Normal data
    /\ size opts = JS.Num sz /\ offset opts = JS.Num off
    /\ body resp = uploads data
    /\ (is_Some (headers resp !! "Next_link") <->
        exists c, count data = JS.Num c /\ off + Z.of_nat (length (uploads data)) < c)
    /\ (forall v, headers resp !! "Next_link" = Some v ->
        v = HStr (page_link (pathname (url request)) sz (off + sz))).
Proof.
  intros H. apply success_page in H.
  destruct H as (sz & off & opts & data & Hlog & Hdb & Hsz & _ & Hoff & _ & Hb
                 & _ & _ & _ & Hnext & _).
  exists sz, off, opts, data. repeat split; try assumption.
  - intros [v Hv]. rewrite Hnext in Hv.
    destruct (JS.lt _ _) eqn:Hlt; [|discriminate].
    apply lt_Num in Hlt as (c & Hc & Hlt). exists c. split; [assumption|lia].
  - intros (c & Hc & Hlt). rewrite Hnext.
    assert (JS.lt (JS.Num (Z.of_nat (length (uploads data)) + off)) (count data) = true)
      as -> by (apply lt_Num; exists c; split; [assumption|lia]).
    eexists; reflexivity.
  - intros v Hv. rewrite Hnext in Hv. destruct (JS.lt _ _); congruence.
Qed.

Lemma next_link_emitted_iff_witness :
  userUploadsGet JS.Date_parse_ISO (example_request []) (example_env 25 30) []
    = (Normal (example_response 25 0 25 30), example_log [])
  /\ exists (sz off : Z) (opts : ListOpts) (data : UploadPage unit),
    example_log [] = ([] ++ [("u1", opts)])%list
    /\ db_listUploads (example_env 25 30) "u1" opts = Normal data
    /\ size opts = JS.Num sz /\ offset opts = JS.Num off
    /\ body (example_response 25 0 25 30) = uploads data
    /\ (is_Some (headers (example_response 25 0 25 30) !! "Next_link") <->
        exists c, count data = JS.Num c /\ off + Z.of_nat (length (uploads data)) < c)
    /\ (forall v, headers (example_response 25 0 25 30) !! "Next_link" = Some v ->
        v = HStr (page_link "/user/uploads" sz (off + sz))).
Proof.
  split; [vm_compute; reflexivity|].
  apply (next_link_emitted_iff JS.Date_parse_ISO (example_request []) (example_env 25 30) []).
  vm_compute; reflexivity.
Defined.

(** C2. For every successful store result, the response of [userUploadsGet]
    has a [Prev_link] header if and only if the effective offset is not
    zero, and the header then is the link to the page at the offset less the
    size; that offset is negative whenever the offset is below the size. *)
Theorem prev_link_emitted_iff {Upload : Type} (Date_parse : string -> JS.Number)
    (request : Request) (env : Env Upload) (log : list StoreCall)
    (resp : Response Upload) (log' : list StoreCall) :
  userUploadsGet Date_parse request env log = (Normal resp, log') ->
  exists (sz off : Z) (opts : ListOpts) (data : UploadPage Upload),
    log' = (log ++ [(_id (user (auth request)), opts)])%list
    /\ db_listUploads env (_id (user (auth request))) opts = Normal data
    /\ size opts = JS.Num sz /\ offset opts = JS.Num off
    /\ (is_Some (headers resp !! "Prev_link") <-> off <> 0)
    /\ (forall v, headers resp !! "Prev_link" = Some v ->
        v = HStr (page_link (pathname (url request)) sz (off - sz)))
    /\ (off <> 0 -> off < sz ->
        headers resp !! "Prev_link"
          = Some (HStr (page_link (pathname (url request)) sz (off - sz)))
        /\ off - sz < 0).
Proof.
  intros H. apply success_page in H.
  destruct H as (sz & off & opts & data & Hlog & Hdb & Hsz & _ & Hoff & _ & _
                 & _ & _ & _ & _ & Hprev).
  exists sz, off, opts, data.
  split; [assumption|]. split; [assumption|]. split; [assumption|].
  split; [assumption|]. split; [split|split].
  - intros [v Hv] ->. rewrite Hprev in Hv. discriminate.
  - intros Hne. rewrite Hprev. apply Z.eqb_neq in Hne. rewrite Hne.
    eexists; reflexivity.
  - intros v Hv. rewrite Hprev in Hv. destruct (negb _); congruence.
  - intros Hne Hlt. split; [|lia].
    rewrite Hprev. apply Z.eqb_neq in Hne. now rewrite Hne.
Qed.

Lemma prev_link_emitted_iff_witness :
  userUploadsGet JS.Date_parse_ISO (example_request [("offset", "5")]) (example_env 25 30) []
    = (Normal (example_response 25 5 25 30), example_log [("offset", "5")])
  /\ headers (example_response 25 5 25 30) !! "Prev_link"
     = Some (HStr (page_link "/user/uploads" 25 (-20)))
  /\ exists (sz off : Z) (opts : ListOpts) (data : UploadPage unit),
    example_log [("offset", "5")] = ([] ++ [("u1", opts)])%list
    /\ db_listUploads (example_env 25 30) "u1" opts = Normal data
    /\ size opts = JS.Num sz /\ offset opts = JS.Num off
    /\ (is_Some (headers (example_response 25 5 25 30) !! "Prev_link") <-> off <> 0)
    /\ (forall v, headers (example_response 25 5 25 30) !! "Prev_link" = Some v ->
        v = HStr (page_link "/user/uploads" sz (off - sz)))
    /\ (off <> 0 -> off < sz ->
        headers (example_response 25 5 25 30) !! "Prev_link"
          = Some (HStr (page_link "/user/uploads" sz (off - sz)))
        /\ off - sz < 0).
Proof.
  split; [vm_compute; reflexivity|]. split; [vm_compute; reflexivity|].
  apply (prev_link_emitted_iff JS.Date_parse_ISO (example_request [("offset", "5")])
           (example_env 25 30) []).
  vm_compute; reflexivity.
Defined.

(** C6. Every pagination link [userUploadsGet] emits, the previous-page link
    as well as the next-page link, is written
    [<path?size=S&offset=O>; rel="next"]: the [Prev_link] header too carries
    the relation [rel="next"]. *)
Theorem links_encoding {Upload : Type} (Date_parse : string -> JS.Number)
    (request : Request) (env : Env Upload) (log : list StoreCall)
    (resp : Response Upload) (log' : list StoreCall) :
  userUploadsGet Date_parse request env log = (Normal resp, log') ->
  exists (sz off : Z),
    headers resp !! "Size" = Some (HNum (JS.Num sz))
    /\ headers resp !! "Offset" = Some (HNum (JS.Num off))
    /\ (forall v, headers resp !! "Next_link" = Some v ->
        v = HStr ("<" +:+ pathname (url request) +:+ "?size=" +:+ JS.Z_toString sz
                  +:+ "&offset=" +:+ JS.Z_toString (off + sz)
                  +:+ ">; rel=" +:+ JS.dquote +:+ "next" +:+ JS.dquote))
    /\ (forall v, headers resp !! "Prev_link" = Some v ->
        v = HStr ("<" +:+ pathname (url request) +:+ "?size=" +:+ JS.Z_toString sz
                  +:+ "&offset=" +:+ JS.Z_toString (off - sz)
                  +:+ ">; rel=" +:+ JS.dquote +:+ "next" +:+ JS.dquote)).
Proof.
  intros H. apply success_page in H.
  destruct H as (sz & off & opts & data & _ & _ & _ & _ & _ & _ & _
                 & _ & Hsize & Hoffset & Hnext & Hprev).
  exists sz, off. repeat split; try assumption.
  - intros v Hv. rewrite Hnext in Hv. destruct (JS.lt _ _); [|discriminate].
    injection Hv as <-. reflexivity.
  - intros v Hv. rewrite Hprev in Hv. destruct (negb _); [|discriminate].
    injection Hv as <-. reflexivity.
Qed.

Lemma links_encoding_witness :
  userUploadsGet JS.Date_parse_ISO
      (example_request [("size", "10"); ("offset", "30")]) (example_env 10 100) []
    = (Normal (example_response 10 30 10 100),
       example_log [("size", "10"); ("offset", "30")])
  /\ headers (example_response 10 30 10 100) !! "Next_link"
     = Some (HStr ("</user/uploads?size=10&offset=40>; rel="
                   +:+ JS.dquote +:+ "next" +:+ JS.dquote))
  /\ headers (example_response 10 30 10 100) !! "Prev_link"
     = Some (HStr ("</user/uploads?size=10&offset=20>; rel="
                   +:+ JS.dquote +:+ "next" +:+ JS.dquote))
  /\ exists (sz off : Z),
    headers (example_response 10 30 10 100) !! "Size" = Some (HNum (JS.Num sz))
    /\ headers (example_response 10 30 10 100) !! "Offset" = Some (HNum (JS.Num off))
    /\ (forall v, headers (example_response 10 30 10 100) !! "Next_link" = Some v ->
        v = HStr ("<" +:+ "/user/uploads" +:+ "?size=" +:+ JS.Z_toString sz
                  +:+ "&offset=" +:+ JS.Z_toString (off + sz)
                  +:+ ">; rel=" +:+ JS.dquote +:+ "next" +:+ JS.dquote))
    /\ (forall v, headers (example_response 10 30 10 100) !! "Prev_link" = Some v ->
        v = HStr ("<" +:+ "/user/uploads" +:+ "?size=" +:+ JS.Z_toString sz
                  +:+ "&offset=" +:+ JS.Z_toString (off - sz)
                  +:+ ">; rel=" +:+ JS.dquote +:+ "next" +:+ JS.dquote)).
Proof.
  split; [vm_compute; reflexivity|]. split; [vm_compute; reflexivity|].
  split; [vm_compute; reflexivity|].
  apply (links_encoding JS.Date_parse_ISO
           (example_request [("size", "10"); ("offset", "30")]) (example_env 10 100) []
           _ (example_log [("size", "10"); ("offset", "30")])).
  vm_compute; reflexivity.
Defined.

(** ** Validation failures and the store *)

Section Validation.

Context {Upload : Type}.
Variable Date_parse : string -> JS.Number.

Implicit Types (request : Request) (env : Env Upload) (log : list StoreCall)
  (sp : JS.URLSearchParams).

Lemma run_validation_error request env log (e : JSError) :
  validation_error Date_parse (searchParams (url request)) = Some e ->
  userUploadsGet Date_parse request env log = (Throw e, log).
Proof. intros H. rewrite userUploadsGet_run. cbv zeta. now rewrite H. Qed.

Lemma run_store_called request env log :
  validation_error Date_parse (searchParams (url request)) = None ->
  snd (userUploadsGet Date_parse request env log)
  = (log ++ [(_id (user (auth request)),
              options_of Date_parse (searchParams (url request)))])%list.
Proof.
  intros H. rewrite userUploadsGet_run. cbv zeta. rewrite H.
  now destruct (db_listUploads env _ _).
Qed.

(** A run that left the log as it was threw a validation error. *)
Lemma run_log_same request env log (r : Completion (Response Upload)) :
  userUploadsGet Date_parse request env log = (r, log) ->
  exists e, validation_error Date_parse (searchParams (url request)) = Some e
    /\ r = Throw e.
Proof.
  rewrite userUploadsGet_run. cbv zeta.
  destruct (validation_error Date_parse _) as [e|].
  - intros [= <-]. now exists e.
  - destruct (db_listUploads env _ _); intros [= _ H]; now apply log_grows in H.
Qed.

(** A run that added a call to the log passed validation, and the call
    carries the options settled from the query. *)
Lemma run_log_grown request env log (r : Completion (Response Upload))
    (userId : string) (opts : ListOpts) :
  userUploadsGet Date_parse request env log = (r, (log ++ [(userId, opts)])%list) ->
  validation_error Date_parse (searchParams (url request)) = None
  /\ opts = options_of Date_parse (searchParams (url request)).
Proof.
  rewrite userUploadsGet_run. cbv zeta.
  destruct (validation_error Date_parse _) as [e|].
  - intros [= _ H]. symmetry in H. now apply log_grows in H.
  - destruct (db_listUploads env _ _); intros [= _ H];
      apply app_inj_tail in H as [_ [= _ <-]]; now split.
Qed.

Lemma bad_page_param sp (name v : string) :
  JS.get sp name = Some v ->
  (JS.parseInt v = JS.NaN
   \/ exists z, JS.parseInt v = JS.Num z /\ (z <= 0 \/ 1000 < z)) ->
  JS.has sp name && rejected (JS.parseInt (JS.ToString (JS.get sp name))) = true.
Proof.
  intros Hv Hbad. rewrite (get_Some_has _ _ _ Hv), Hv. simpl.
  now apply rejected_true.
Qed.

Lemma absent_page_param sp (name : string) :
  JS.get sp name = None ->
  JS.has sp name && rejected (JS.parseInt (JS.ToString (JS.get sp name))) = false.
Proof. intros Hn. now rewrite (get_None_has _ _ Hn). Qed.

Lemma bad_date_param sp (name v : string) :
  JS.get sp name = Some v -> Date_parse v = JS.NaN ->
  bad_date Date_parse name sp = true.
Proof.
  intros Hv Hnan. unfold bad_date. rewrite (get_Some_has _ _ _ Hv), Hv. simpl.
  now rewrite Hnan.
Qed.

End Validation.

(** C3. When the [offset] parameter is present and its parsed value is not
    a number, is zero or less, or is above 1000, [userUploadsGet] throws an
    error of status 400 before the store is called, which is the offset's
    own error unless the size was rejected first; so an explicit [offset=0]
    is rejected.  When the parameter is absent the offset is 0: validation
    raises no offset error, the store is asked for offset 0 and the
    response says [Offset: 0]. *)
Theorem offset_validation {Upload : Type} (Date_parse : string -> JS.Number)
    (request : Request) (env : Env Upload) (log : list StoreCall) :
  let sp := searchParams (url request) in
  let result := userUploadsGet Date_parse request env log in
  (forall v, JS.get sp "offset" = Some v ->
     (JS.parseInt v = JS.NaN
      \/ exists z, JS.parseInt v = JS.Num z /\ (z <= 0 \/ 1000 < z)) ->
     exists e, result = (Throw e, log) /\ status e = Some 400
       /\ (bad_size sp = false -> message e = "invalid page offset"))
  /\ (JS.get sp "offset" = Some "0" ->
      exists e, result = (Throw e, log) /\ status e = Some 400)
  /\ (JS.get sp "offset" = None ->
      (forall e, result = (Throw e, log) -> message e <> "invalid page offset")
      /\ (forall r userId opts, result = (r, (log ++ [(userId, opts)])%list) ->
          offset opts = JS.Num 0)
      /\ (forall resp log', result = (Normal resp, log') ->
          headers resp !! "Offset" = Some (HNum (JS.Num 0)))).
Proof.
  cbv zeta. set (sp := searchParams (url request)).
  assert (forall v, JS.get sp "offset" = Some v ->
     (JS.parseInt v = JS.NaN
      \/ exists z, JS.parseInt v = JS.Num z /\ (z <= 0 \/ 1000 < z)) ->
     exists e, userUploadsGet Date_parse request env log = (Throw e, log)
       /\ status e = Some 400
       /\ (bad_size sp = false -> message e = "invalid page offset")) as Hbad.
  { intros v Hv Hrej. pose proof (bad_page_param sp "offset" v Hv Hrej) as Hb.
    fold (bad_offset sp) in Hb.
    destruct (validation_error Date_parse sp) as [e|] eqn:He.
    - exists e. split; [now apply run_validation_error|].
      split; [now apply validation_error_status in He|].
      intros Hs. unfold validation_error in He.
      rewrite Hs, Hb in He. now injection He as <-.
    - apply validation_error_None in He as (_ & Ho & _). congruence. }
  split; [exact Hbad|]. split.
  - intros Hv. destruct (Hbad "0" Hv) as (e & He & Hst & _); [|now exists e].
    right. exists 0. split; [reflexivity|lia].
  - intros Hn. pose proof (absent_page_param sp "offset" Hn) as Hb.
    fold (bad_offset sp) in Hb. repeat split.
    + intros e He. apply run_log_same in He as (e' & He' & [= ->]).
      fold sp in He'. unfold validation_error in He'. rewrite Hb in He'.
      destruct (bad_size sp), (bad_date Date_parse "before" sp),
        (bad_date Date_parse "after" sp); try discriminate He';
        injection He' as <-; discriminate.
    + intros r userId opts Hr. apply run_log_grown in Hr as (_ & ->).
      fold sp. unfold options_of, page_param. cbn [offset].
      now rewrite (get_None_has _ _ Hn).
    + intros resp log' Hr. apply userUploadsGet_Normal in Hr. cbv zeta in Hr.
      destruct Hr as (sz & off & data & _ & _ & _ & _ & _ & _ & Hoff & _ & _ & ->).
      rewrite (Hoff (get_None_has _ _ Hn)).
      apply (response_of_Count (pathname (url request)) (JS.Num sz) (JS.Num 0) data).
Qed.

Lemma offset_validation_witness :
  (JS.get [("offset", "0")] "offset" = Some "0"
   /\ exists e, run_example [("offset", "0")] 25 30 = (Throw e, [])
        /\ status e = Some 400
        /\ (bad_size [("offset", "0")] = false -> message e = "invalid page offset"))
  /\ (JS.get [("size", "10")] "offset" = None
      /\ run_example [("size", "10")] 10 30
         = (Normal (example_response 10 0 10 30), example_log [("size", "10")])
      /\ headers (example_response 10 0 10 30) !! "Offset" = Some (HNum (JS.Num 0))).
Proof.
  split.
  - split; [reflexivity|].
    apply (proj1 (offset_validation JS.Date_parse_ISO (example_request [("offset", "0")])
                    (example_env 25 30) []) "0"); [reflexivity|].
    right. exists 0. split; [reflexivity|lia].
  - split; [reflexivity|]. split; [vm_compute; reflexivity|].
    destruct (offset_validation JS.Date_parse_ISO (example_request [("size", "10")])
                (example_env 10 30) []) as (_ & _ & Habsent).
    destruct (Habsent eq_refl) as (_ & _ & Hresp).
    apply (Hresp _ (example_log [("size", "10")])).
    vm_compute; reflexivity.
Defined.

(** C4. When the [size] parameter is present and its parsed value is not a
    number, is zero or less, or is above 1000, [userUploadsGet] throws
    [invalid page size] with status 400 before the store is called.  When
    the parameter is absent the size is 25: validation raises no size error,
    the store is asked for 25 records and the response says [Size: 25]. *)
Theorem size_validation {Upload : Type} (Date_parse : string -> JS.Number)
    (request : Request) (env : Env Upload) (log : list StoreCall) :
  let sp := searchParams (url request) in
  let result := userUploadsGet Date_parse request env log in
  (forall v, JS.get sp "size" = Some v ->
     (JS.parseInt v = JS.NaN
      \/ exists z, JS.parseInt v = JS.Num z /\ (z <= 0 \/ 1000 < z)) ->
     result = (Throw (Error_with_status "invalid page size" 400), log))
  /\ (JS.get sp "size" = None ->
      (forall e, result = (Throw e, log) -> message e <> "invalid page size")
      /\ (forall r userId opts, result = (r, (log ++ [(userId, opts)])%list) ->
          size opts = JS.Num 25)
      /\ (forall resp log', result = (Normal resp, log') ->
          headers resp !! "Size" = Some (HNum (JS.Num 25)))).
Proof.
  cbv zeta. set (sp := searchParams (url request)). split.
  - intros v Hv Hrej. pose proof (bad_page_param sp "size" v Hv Hrej) as Hb.
    fold (bad_size sp) in Hb.
    apply run_validation_error. fold sp. unfold validation_error. now rewrite Hb.
  - intros Hn. pose proof (absent_page_param sp "size" Hn) as Hb.
    fold (bad_size sp) in Hb. repeat split.
    + intros e He. apply run_log_same in He as (e' & He' & [= ->]).
      fold sp in He'. unfold validation_error in He'. rewrite Hb in He'.
      destruct (bad_offset sp), (bad_date Date_parse "before" sp),
        (bad_date Date_parse "after" sp); try discriminate He';
        injection He' as <-; discriminate.
    + intros r userId opts Hr. apply run_log_grown in Hr as (_ & ->).
      fold sp. unfold options_of, page_param. cbn [size].
      now rewrite (get_None_has _ _ Hn).
    + intros resp log' Hr. apply userUploadsGet_Normal in Hr. cbv zeta in Hr.
      destruct Hr as (sz & off & data & _ & _ & _ & Hsz & _ & _ & _ & _ & _ & ->).
      rewrite (Hsz (get_None_has _ _ Hn)).
      apply (response_of_Count (pathname (url request)) (JS.Num 25) (JS.Num off) data).
Qed.

Lemma size_validation_witness :
  (JS.get [("size", "1001")] "size" = Some "1001"
   /\ run_example [("size", "1001")] 25 30
      = (Throw (Error_with_status "invalid page size" 400), []))
  /\ (JS.get [("size", "abc")] "size" = Some "abc"
      /\ run_example [("size", "abc")] 25 30
         = (Throw (Error_with_status "invalid page size" 400), []))
  /\ (JS.get [("size", "0")] "size" = Some "0"
      /\ run_example [("size", "0")] 25 30
         = (Throw (Error_with_status "invalid page size" 400), []))
  /\ (JS.get [] "size" = None
      /\ run_example [] 25 30 = (Normal (example_response 25 0 25 30), example_log [])
      /\ headers (example_response 25 0 25 30) !! "Size" = Some (HNum (JS.Num 25))).
Proof.
  split; [split; [reflexivity|]|split; [split; [reflexivity|]|split; [split; [reflexivity|]|]]].
  - apply (proj1 (size_validation JS.Date_parse_ISO (example_request [("size", "1001")])
                    (example_env 25 30) []) "1001"); [reflexivity|].
    right. exists 1001. split; [reflexivity|lia].
  - apply (proj1 (size_validation JS.Date_parse_ISO (example_request [("size", "abc")])
                    (example_env 25 30) []) "abc"); [reflexivity|].
    left. reflexivity.
  - apply (proj1 (size_validation JS.Date_parse_ISO (example_request [("size", "0")])
                    (example_env 25 30) []) "0"); [reflexivity|].
    right. exists 0. split; [reflexivity|lia].
  - split; [reflexivity|]. split; [vm_compute; reflexivity|].
    destruct (size_validation JS.Date_parse_ISO (example_request [])
                (example_env 25 30) []) as (_ & Habsent).
    destruct (Habsent eq_refl) as (_ & _ & Hresp).
    apply (Hresp _ (example_log [])).
    vm_compute; reflexivity.
Defined.

(** C5. [userUploadsGet] validates the size, then the offset, then [before],
    then [after], and throws the error of the first rule that fails; the
    store is called, once, exactly when no rule fails, so a request that
    fails validation never reaches the store. *)
Theorem validation_order {Upload : Type} (Date_parse : string -> JS.Number)
    (request : Request) (env : Env Upload) (log : list StoreCall) :
  let sp := searchParams (url request) in
  let result := userUploadsGet Date_parse request env log in
  (bad_size sp = true ->
   result = (Throw (Error_with_status "invalid page size" 400), log))
  /\ (bad_size sp = false -> bad_offset sp = true ->
      result = (Throw (Error_with_status "invalid page offset" 400), log))
  /\ (bad_size sp = false -> bad_offset sp = false ->
      bad_date Date_parse "before" sp = true ->
      result = (Throw (Error_with_status "invalid before date" 400), log))
  /\ (bad_size sp = false -> bad_offset sp = false ->
      bad_date Date_parse "before" sp = false ->
      bad_date Date_parse "after" sp = true ->
      result = (Throw (Error_with_status "invalid after date" 400), log))
  /\ (bad_size sp = false -> bad_offset sp = false ->
      bad_date Date_parse "before" sp = false ->
      bad_date Date_parse "after" sp = false ->
      snd result
      = (log ++ [(_id (user (auth request)), options_of Date_parse sp)])%list)
  /\ (snd result = log <->
      bad_size sp || bad_offset sp || bad_date Date_parse "before" sp
      || bad_date Date_parse "after" sp = true).
Proof.
  cbv zeta. set (sp := searchParams (url request)).
  assert (forall e, validation_error Date_parse sp = Some e ->
            userUploadsGet Date_parse request env log = (Throw e, log)) as Hthrow
    by (intros e He; now apply run_validation_error).
  assert (validation_error Date_parse sp = None ->
          snd (userUploadsGet Date_parse request env log)
          = (log ++ [(_id (user (auth request)), options_of Date_parse sp)])%list)
    as Hcall by (intros He; now apply run_store_called).
  unfold validation_error in Hthrow, Hcall.
  destruct (bad_size sp), (bad_offset sp), (bad_date Date_parse "before" sp),
    (bad_date Date_parse "after" sp); simpl;
    repeat split; intros; try discriminate; try (now apply Hthrow);
    try (now apply Hcall);
    try (now rewrite (Hthrow _ eq_refl)).
  all: exfalso; rewrite (Hcall eq_refl) in *;
    match goal with H : (_ ++ [_])%list = _ |- _ => now apply log_grows in H end.
Qed.

Lemma validation_order_witness :
  (bad_size [("size", "0"); ("offset", "x"); ("before", "not-a-date")] = true
   /\ run_example [("size", "0"); ("offset", "x"); ("before", "not-a-date")] 25 30
      = (Throw (Error_with_status "invalid page size" 400), []))
  /\ (bad_size [("offset", "x"); ("before", "not-a-date")] = false
      /\ bad_offset [("offset", "x"); ("before", "not-a-date")] = true
      /\ run_example [("offset", "x"); ("before", "not-a-date")] 25 30
         = (Throw (Error_with_status "invalid page offset" 400), []))
  /\ (bad_date JS.Date_parse_ISO "before" [("before", "not-a-date"); ("after", "x")] = true
      /\ run_example [("before", "not-a-date"); ("after", "x")] 25 30
         = (Throw (Error_with_status "invalid before date" 400), []))
  /\ (bad_date JS.Date_parse_ISO "after" [("before", "2021-01-01"); ("after", "x")] = true
      /\ run_example [("before", "2021-01-01"); ("after", "x")] 25 30
         = (Throw (Error_with_status "invalid after date" 400), [])).
Proof.
  split; [split; [reflexivity|]|split; [split; [reflexivity|split; [reflexivity|]]
         |split; [split; [reflexivity|]|split; [reflexivity|]]]].
  - apply (validation_order JS.Date_parse_ISO
             (example_request [("size", "0"); ("offset", "x"); ("before", "not-a-date")])
             (example_env 25 30) []).
    reflexivity.
  - apply (validation_order JS.Date_parse_ISO
             (example_request [("offset", "x"); ("before", "not-a-date")])
             (example_env 25 30) []); reflexivity.
  - apply (validation_order JS.Date_parse_ISO
             (example_request [("before", "not-a-date"); ("after", "x")])
             (example_env 25 30) []); reflexivity.
  - apply (validation_order JS.Date_parse_ISO
             (example_request [("before", "2021-01-01"); ("after", "x")])
             (example_env 25 30) []); reflexivity.
Defined.

(** C7. When [before] (or [after]) is present and its value does not parse
    to a valid time, [userUploadsGet] throws an error of status 400 before
    the store is called: the parameter's own error when no earlier rule
    fails.  When the store is called, the filter it is given is the ISO
    string of the parsed time, whatever the spelling in the request, and is
    [undefined] for an absent parameter. *)
Theorem date_filters_validated {Upload : Type} (Date_parse : string -> JS.Number)
    (request : Request) (env : Env Upload) (log : list StoreCall) :
  let sp := searchParams (url request) in
  let result := userUploadsGet Date_parse request env log in
  (forall name v, name = "before" \/ name = "after" ->
     JS.get sp name = Some v -> Date_parse v = JS.NaN ->
     exists e, result = (Throw e, log) /\ status e = Some 400)
  /\ (forall v, JS.get sp "before" = Some v -> Date_parse v = JS.NaN ->
      bad_size sp = false -> bad_offset sp = false ->
      result = (Throw (Error_with_status "invalid before date" 400), log))
  /\ (forall v, JS.get sp "after" = Some v -> Date_parse v = JS.NaN ->
      bad_size sp = false -> bad_offset sp = false ->
      bad_date Date_parse "before" sp = false ->
      result = (Throw (Error_with_status "invalid after date" 400), log))
  /\ (forall r userId opts, result = (r, (log ++ [(userId, opts)])%list) ->
      (forall v, JS.get sp "before" = Some v ->
         exists t, Date_parse v = JS.Num t /\ before opts = Some (JS.toISOString t))
      /\ (JS.get sp "before" = None -> before opts = None)
      /\ (forall v, JS.get sp "after" = Some v ->
            exists t, Date_parse v = JS.Num t /\ after opts = Some (JS.toISOString t))
      /\ (JS.get sp "after" = None -> after opts = None)).
Proof.
  cbv zeta. set (sp := searchParams (url request)).
  assert (forall e, validation_error Date_parse sp = Some e ->
            userUploadsGet Date_parse request env log = (Throw e, log)) as Hthrow
    by (intros e He; now apply run_validation_error).
  split; [|split; [|split]].
  - intros name v Hname Hv Hnan.
    pose proof (bad_date_param Date_parse sp name v Hv Hnan) as Hb.
    destruct (validation_error Date_parse sp) as [e|] eqn:He.
    + exists e. split; [now apply Hthrow|]. now apply validation_error_status in He.
    + apply validation_error_None in He as (_ & _ & Hbe & Haf).
      destruct Hname as [-> | ->]; congruence.
  - intros v Hv Hnan Hs Ho.
    pose proof (bad_date_param Date_parse sp "before" v Hv Hnan) as Hb.
    apply Hthrow. unfold validation_error. now rewrite Hs, Ho, Hb.
  - intros v Hv Hnan Hs Ho Hbe.
    pose proof (bad_date_param Date_parse sp "after" v Hv Hnan) as Hb.
    apply Hthrow. unfold validation_error. now rewrite Hs, Ho, Hbe, Hb.
  - intros r userId opts Hr. apply run_log_grown in Hr as (He & ->). fold sp in He |- *.
    apply validation_error_None in He as (_ & _ & Hbe & Haf).
    apply date_param_settled in Hbe as (Hbe1 & Hbe2).
    apply date_param_settled in Haf as (Haf1 & Haf2).
    unfold options_of. cbn [before after]. auto.
Qed.

Lemma date_filters_validated_witness :
  (JS.get [("before", "not-a-date")] "before" = Some "not-a-date"
   /\ JS.Date_parse_ISO "not-a-date" = JS.NaN
   /\ run_example [("before", "not-a-date")] 25 30
      = (Throw (Error_with_status "invalid before date" 400), []))
  /\ (run_example [("before", "2021-01-01"); ("after", "2020-02-29")] 25 30
      = (Normal (example_response 25 0 25 30),
         ([] ++ [("u1", options_of JS.Date_parse_ISO
                          [("before", "2021-01-01"); ("after", "2020-02-29")])])%list)
      /\ (exists t, JS.Date_parse_ISO "2021-01-01" = JS.Num t
            /\ before (options_of JS.Date_parse_ISO
                         [("before", "2021-01-01"); ("after", "2020-02-29")])
               = Some (JS.toISOString t))
      /\ JS.toISOString 1609459200000 = "2021-01-01T00:00:00.000Z"
      /\ JS.toISOString 1609459200000 <> "2021-01-01").
Proof.
  split.
  - split; [reflexivity|]. split; [reflexivity|].
    apply (proj1 (proj2 (date_filters_validated JS.Date_parse_ISO
                    (example_request [("before", "not-a-date")]) (example_env 25 30) []))
             "not-a-date"); reflexivity.
  - split; [vm_compute; reflexivity|]. split; [|split; [vm_compute; reflexivity|]].
    + destruct (date_filters_validated JS.Date_parse_ISO
                  (example_request [("before", "2021-01-01"); ("after", "2020-02-29")])
                  (example_env 25 30) []) as (_ & _ & _ & Hcall).
      refine (proj1 (Hcall (Normal (example_response 25 0 25 30)) "u1" _ _) "2021-01-01" _);
        [vm_compute; reflexivity|reflexivity].
    + vm_compute. discriminate.
Defined.

(** ** Reading back a printed integer *)

Lemma radixDigit_digit_char (d : Z) :
  0 <= d < 10 -> JS.radixDigit 10 (JS.digit_char d) = Some d.
Proof.
  intros H.
  assert (d = 0 \/ d = 1 \/ d = 2 \/ d = 3 \/ d = 4 \/ d = 5 \/ d = 6 \/ d = 7
          \/ d = 8 \/ d = 9) as Hd by lia.
  repeat (destruct Hd as [->|Hd]; [reflexivity|]). now subst.
Qed.

Lemma parseDigits_digits_of (fuel : nat) :
  forall (n : Z) (acc : string),
    0 <= n < 10 ^ (Z.of_nat fuel + 1) ->
    JS.parseDigits 10 (JS.digits_of fuel n acc) None
    = JS.parseDigits 10 acc (Some n).
Proof.
  induction fuel as [|fuel IH]; intros n acc Hn.
  - change (10 ^ (Z.of_nat 0 + 1)) with 10 in Hn.
    simpl. rewrite radixDigit_digit_char by (apply Z.mod_pos_bound; lia).
    now rewrite Z.mod_small by lia.
  - simpl JS.digits_of. destruct (n <? 10) eqn:Hlt.
    + apply Z.ltb_lt in Hlt.
      simpl. rewrite radixDigit_digit_char by (apply Z.mod_pos_bound; lia).
      now rewrite Z.mod_small by lia.
    + apply Z.ltb_ge in Hlt. rewrite IH.
      * simpl. rewrite radixDigit_digit_char by (apply Z.mod_pos_bound; lia).
        do 2 f_equal. pose proof (Z.div_mod n 10). lia.
      * split; [apply Z.div_pos; lia|]. apply Z.div_lt_upper_bound; [lia|].
        rewrite Nat2Z.inj_succ in Hn.
        replace (Z.succ (Z.of_nat fuel) + 1) with (Z.succ (Z.of_nat fuel + 1)) in Hn by lia.
        rewrite Z.pow_succ_r in Hn by lia. lia.
Qed.

Lemma digits_of_decimal (fuel : nat) :
  forall (n : Z) (acc : string),
    all_decimal acc = true -> all_decimal (JS.digits_of fuel n acc) = true.
Proof.
  induction fuel as [|fuel IH]; intros n acc Hacc; simpl.
  - rewrite radixDigit_digit_char by (apply Z.mod_pos_bound; lia). exact Hacc.
  - assert (all_decimal (String (JS.digit_char (n mod 10)) acc) = true) as Hstep.
    { simpl. rewrite radixDigit_digit_char by (apply Z.mod_pos_bound; lia). exact Hacc. }
    destruct (n <? 10); [exact Hstep|]. apply IH, Hstep.
Qed.

Lemma digits_of_nonempty (fuel : nat) :
  forall (n : Z) (acc : string), JS.digits_of fuel n acc <> EmptyString.
Proof.
  induction fuel as [|fuel IH]; intros n acc; simpl; [discriminate|].
  destruct (n <? 10); [discriminate|apply IH].
Qed.

Lemma decimal_fuel (n : Z) :
  0 <= n -> n < 10 ^ (Z.of_nat (Z.to_nat (Z.log2 n)) + 1).
Proof.
  intros Hn. rewrite Z2Nat.id by apply Z.log2_nonneg.
  destruct (Z.eq_dec n 0) as [->|Hne]; [reflexivity|].
  pose proof (Z.log2_spec n ltac:(lia)) as [_ Hup].
  pose proof (Z.log2_nonneg n).
  eapply Z.lt_le_trans; [exact Hup|].
  replace (Z.succ (Z.log2 n)) with (Z.log2 n + 1) by lia.
  apply Z.pow_le_mono_l. lia.
Qed.

(** On a string of decimal digits, with or without a minus sign before it,
    [parseInt] reads in radix 10. *)
Lemma parseInt_all_decimal (s : string) :
  s <> EmptyString -> all_decimal s = true ->
  JS.parseInt s
  = match JS.parseDigits 10 s None with
    | None => JS.NaN
    | Some mathInt => JS.Num (1 * mathInt)
    end
  /\ JS.parseInt (String "-" s)
     = match JS.parseDigits 10 s None with
       | None => JS.NaN
       | Some mathInt => JS.Num (-1 * mathInt)
       end.
Proof.
  destruct s as [|a s]; [congruence|]. intros _ H. simpl in H.
  destruct (JS.radixDigit 10 a) eqn:Ha; [|discriminate].
  destruct a as [[] [] [] [] [] [] [] []]; try discriminate Ha;
    try (split; reflexivity).
  destruct s as [|b s]; [split; reflexivity|]. simpl in H.
  destruct (JS.radixDigit 10 b) eqn:Hb; [|discriminate].
  destruct b as [[] [] [] [] [] [] [] []]; try discriminate Hb; split; reflexivity.
Qed.

Lemma parseInt_Z_toString (z : Z) : JS.parseInt (JS.Z_toString z) = JS.Num z.
Proof.
  unfold JS.Z_toString, JS.decimal. destruct (z <? 0) eqn:Hz.
  - apply Z.ltb_lt in Hz.
    rewrite (proj2 (parseInt_all_decimal _ (digits_of_nonempty _ _ _)
                      (digits_of_decimal _ _ EmptyString eq_refl))).
    rewrite parseDigits_digits_of by (split; [lia|apply decimal_fuel; lia]).
    simpl JS.parseDigits. f_equal. lia.
  - apply Z.ltb_ge in Hz.
    rewrite (proj1 (parseInt_all_decimal _ (digits_of_nonempty _ _ _)
                      (digits_of_decimal _ _ EmptyString eq_refl))).
    rewrite parseDigits_digits_of by (split; [lia|apply decimal_fuel; lia]).
    simpl JS.parseDigits. f_equal. lia.
Qed.

(** A request that follows a link passes validation exactly when the
    offset of the link is one the handler accepts. *)
Lemma follow_validation (Date_parse : string -> JS.Number) (request : Request)
    (sz target : Z) :
  1 <= sz <= 1000 ->
  validation_error Date_parse (searchParams (url (follow request sz target)))
  = if (1 <=? target) && (target <=? 1000) then None
    else Some (Error_with_status "invalid page offset" 400).
Proof.
  intros Hsz. unfold validation_error, bad_size, bad_offset, bad_date.
  set (sp := searchParams (url (follow request sz target))).
  change (JS.has sp "size") with true. change (JS.has sp "offset") with true.
  change (JS.has sp "before") with false. change (JS.has sp "after") with false.
  change (JS.ToString (JS.get sp "size")) with (JS.Z_toString sz).
  change (JS.ToString (JS.get sp "offset")) with (JS.Z_toString target).
  rewrite !parseInt_Z_toString.
  assert (rejected (JS.Num sz) = false) as -> by (apply rejected_false; eauto).
  destruct ((1 <=? target) && (target <=? 1000)) eqn:Ht.
  - apply andb_true_iff in Ht as [H1 H2]. apply Z.leb_le in H1, H2.
    assert (rejected (JS.Num target) = false) as -> by (apply rejected_false; eauto).
    reflexivity.
  - assert (rejected (JS.Num target) = true) as ->; [|reflexivity].
    apply rejected_true. right. exists target. split; [reflexivity|].
    apply andb_false_iff in Ht as [H|H]; [apply Z.leb_gt in H|apply Z.leb_gt in H]; lia.
Qed.

(** C8. A request [userUploadsGet] accepts can be answered with a link the
    handler itself rejects: for [size=1000&offset=1000] and a count of 5000
    the next link is [<path?size=1000&offset=2000>], and the request for
    that URL fails validation with [invalid page offset], whatever the
    store.  The same happens for every accepted request whose offset and
    size add up to more than 1000. *)
Theorem next_link_outside_accepted_range :
  (let request := example_request [("size", "1000"); ("offset", "1000")] in
   exists (resp : Response unit) (log' : list StoreCall),
     userUploadsGet JS.Date_parse_ISO request (example_env 1000 5000) []
       = (Normal resp, log')
     /\ headers resp !! "Next_link"
        = Some (HStr (page_link (pathname (url request)) 1000 2000))
     /\ page_link (pathname (url request)) 1000 2000
        = "</user/uploads?size=1000&offset=2000>; rel=" +:+ JS.dquote +:+ "next" +:+ JS.dquote
     /\ searchParams (url (follow request 1000 2000))
        = [("size", "1000"); ("offset", "2000")]
     /\ forall (Upload : Type) (Date_parse : string -> JS.Number)
          (env : Env Upload) (log : list StoreCall),
          userUploadsGet Date_parse (follow request 1000 2000) env log
          = (Throw (Error_with_status "invalid page offset" 400), log))
  /\ (forall (Upload : Type) (Date_parse : string -> JS.Number) (request : Request)
        (env : Env Upload) (log : list StoreCall) (resp : Response Upload)
        (log' : list StoreCall) (sz off : Z),
        userUploadsGet Date_parse request env log = (Normal resp, log') ->
        headers resp !! "Size" = Some (HNum (JS.Num sz)) ->
        headers resp !! "Offset" = Some (HNum (JS.Num off)) ->
        1000 < off + sz ->
        (forall v, headers resp !! "Next_link" = Some v ->
           v = HStr (page_link (pathname (url request)) sz (off + sz)))
        /\ forall (env2 : Env Upload) (log2 : list StoreCall),
             userUploadsGet Date_parse (follow request sz (off + sz)) env2 log2
             = (Throw (Error_with_status "invalid page offset" 400), log2)).
Proof.
  split.
  - cbv zeta.
    exists (example_response 1000 1000 1000 5000),
      (example_log [("size", "1000"); ("offset", "1000")]).
    split; [vm_compute; reflexivity|]. split; [vm_compute; reflexivity|].
    split; [vm_compute; reflexivity|]. split; [vm_compute; reflexivity|].
    intros Upload Date_parse env log. apply run_validation_error. reflexivity.
  - intros Upload Date_parse request env log resp log' sz off H Hsize Hoffset Hbig.
    apply success_page in H.
    destruct H as (sz' & off' & opts & data & _ & _ & _ & Hsz & _ & _ & _
                   & _ & Hsize' & Hoffset' & Hnext & _).
    rewrite Hsize in Hsize'. rewrite Hoffset in Hoffset'.
    injection Hsize' as <-. injection Hoffset' as <-. split.
    + intros v Hv. rewrite Hnext in Hv. destruct (JS.lt _ _); congruence.
    + intros env2 log2. apply run_validation_error.
      rewrite follow_validation by assumption.
      assert ((1 <=? off + sz) && (off + sz <=? 1000) = false) as ->; [|reflexivity].
      apply andb_false_iff. right. apply Z.leb_gt. lia.
Qed.

(** ** Following a link *)

Section Follow.

Context {Upload : Type}.
Variable Date_parse : string -> JS.Number.

(** A request that follows a link carries neither filter nor sort. *)
Lemma follow_options (request : Request) (sz off : Z) :
  let opts := options_of Date_parse (searchParams (url (follow request sz off))) in
  before opts = None /\ after opts = None
  /\ sortBy opts = "Date" /\ sortOrder opts = "Desc".
Proof. cbv zeta. repeat split. Qed.

Lemma before_settled (sp : JS.URLSearchParams) :
  validation_error Date_parse sp = None ->
  (before (options_of Date_parse sp) = None <-> JS.get sp "before" = None)
  /\ (after (options_of Date_parse sp) = None <-> JS.get sp "after" = None).
Proof.
  intros He. apply validation_error_None in He as (_ & _ & Hbe & Haf).
  apply date_param_settled in Hbe as (Hbe1 & Hbe2).
  apply date_param_settled in Haf as (Haf1 & Haf2).
  unfold options_of. cbn [before after]. split; split; auto.
  - destruct (JS.get sp "before") as [v|]; [|reflexivity].
    destruct (Hbe1 v eq_refl) as (t & _ & ->). discriminate.
  - destruct (JS.get sp "after") as [v|]; [|reflexivity].
    destruct (Haf1 v eq_refl) as (t & _ & ->). discriminate.
Qed.

End Follow.

(** C9, as the code has it.  Every link [userUploadsGet] emits is the URL
    [path?size=S&offset=O] and nothing more, whatever [before], [after],
    [sortBy] or [sortOrder] the request supplied.  A request that follows
    the link and reaches the store is therefore queried with no [before] or
    [after] filter and with the default sort; this is the filter and sort of
    the emitting page exactly when that page was queried without a filter
    and with the default sort, which is when the request supplied neither
    [before] nor [after] and no [sortBy] or [sortOrder] other than the empty
    string or the default. *)
Theorem links_carry_only_size_and_offset {Upload : Type}
    (Date_parse : string -> JS.Number)
    (request : Request) (env : Env Upload) (log : list StoreCall)
    (resp : Response Upload) (log' : list StoreCall) :
  userUploadsGet Date_parse request env log = (Normal resp, log') ->
  let sp := searchParams (url request) in
  exists (sz off : Z) (opts : ListOpts),
    log' = (log ++ [(_id (user (auth request)), opts)])%list
    /\ size opts = JS.Num sz /\ offset opts = JS.Num off
    /\ (before opts = None <-> JS.get sp "before" = None)
    /\ (after opts = None <-> JS.get sp "after" = None)
    /\ sortBy opts = JS.or_else (JS.get sp "sortBy") "Date"
    /\ sortOrder opts = JS.or_else (JS.get sp "sortOrder") "Desc"
    /\ forall key v, key = "Next_link" \/ key = "Prev_link" ->
       headers resp !! key = Some v ->
       exists target : Z,
         v = HStr ("<" +:+ pathname (url (follow request sz target)) +:+ "?"
                   +:+ raw_query (searchParams (url (follow request sz target)))
                   +:+ ">; rel=" +:+ JS.dquote +:+ "next" +:+ JS.dquote)
         /\ searchParams (url (follow request sz target))
            = [("size", JS.Z_toString sz); ("offset", JS.Z_toString target)]
         /\ forall (env2 : Env Upload) (log2 : list StoreCall)
              (r2 : Completion (Response Upload)) (userId2 : string) (opts2 : ListOpts),
              userUploadsGet Date_parse (follow request sz target) env2 log2
              = (r2, (log2 ++ [(userId2, opts2)])%list) ->
              before opts2 = None /\ after opts2 = None
              /\ sortBy opts2 = "Date" /\ sortOrder opts2 = "Desc"
              /\ ((before opts2 = before opts /\ after opts2 = after opts
                   /\ sortBy opts2 = sortBy opts /\ sortOrder opts2 = sortOrder opts)
                  <-> (before opts = None /\ after opts = None
                       /\ sortBy opts = "Date" /\ sortOrder opts = "Desc")).
Proof.
  intros H sp. apply userUploadsGet_Normal in H. cbv zeta in H. fold sp in H.
  destruct H as (sz & off & data & Hval & Hsz & _ & _ & Hoff & _ & _ & _ & -> & ->).
  exists sz, off, (options_of Date_parse sp).
  destruct (before_settled Date_parse sp Hval) as (Hb & Ha).
  split; [reflexivity|]. split; [assumption|]. split; [assumption|].
  split; [assumption|]. split; [assumption|].
  split; [reflexivity|]. split; [reflexivity|].
  intros key v Hkey Hv.
  assert (exists target, v = HStr (page_link (pathname (url request)) sz target))
    as (target & ->).
  { destruct Hkey as [-> | ->].
    - rewrite response_of_Next_link in Hv. destruct (JS.lt _ _); [|discriminate].
      injection Hv as <-. eauto.
    - rewrite response_of_Prev_link in Hv. destruct (negb _); [|discriminate].
      injection Hv as <-. eauto. }
  exists target. split; [now rewrite page_link_follow|]. split; [reflexivity|].
  intros env2 log2 r2 userId2 opts2 Hr.
  apply run_log_grown in Hr as (_ & ->).
  destruct (follow_options Date_parse request sz target) as (F1 & F2 & F3 & F4).
  cbv zeta in F1, F2, F3, F4. rewrite F1, F2, F3, F4.
  repeat split; try reflexivity; intuition congruence.
Qed.

Lemma links_carry_only_size_and_offset_witness :
  let sp := [("size", "10"); ("offset", "30"); ("before", "2021-01-01");
             ("sortBy", "Name")] in
  run_example sp 10 100 = (Normal (example_response 10 30 10 100), example_log sp)
  /\ headers (example_response 10 30 10 100) !! "Next_link"
     = Some (HStr ("</user/uploads?size=10&offset=40>; rel="
                   +:+ JS.dquote +:+ "next" +:+ JS.dquote))
  /\ exists (sz off : Z) (opts : ListOpts),
       example_log sp = ([] ++ [("u1", opts)])%list
       /\ size opts = JS.Num sz /\ offset opts = JS.Num off
       /\ (before opts = None <-> JS.get sp "before" = None)
       /\ sortBy opts = JS.or_else (JS.get sp "sortBy") "Date".
Proof.
  cbv zeta. split; [vm_compute; reflexivity|]. split; [vm_compute; reflexivity|].
  destruct (links_carry_only_size_and_offset JS.Date_parse_ISO
              (example_request [("size", "10"); ("offset", "30");
                                ("before", "2021-01-01"); ("sortBy", "Name")])
              (example_env 10 100) [] (example_response 10 30 10 100)
              (example_log [("size", "10"); ("offset", "30");
                            ("before", "2021-01-01"); ("sortBy", "Name")]))
    as (sz & off & opts & Hlog & Hsz & Hoff & Hbe & _ & Hsort & _);
    [vm_compute; reflexivity|].
  exists sz, off, opts. repeat split; try assumption; apply Hbe.
Defined.

(** C9 as stated fails for a request that supplies [sortBy=Date]: its next
    link is followed with the filter and the sort of the page it came
    from. *)
Lemma links_drop_filters_counterexample :
  let request := example_request [("sortBy", "Date")] in
  JS.has (searchParams (url request)) "sortBy" = true
  /\ exists (resp : Response unit) (opts opts' : ListOpts)
       (r : Completion (Response unit)),
    userUploadsGet JS.Date_parse_ISO request (example_env 25 60) []
      = (Normal resp, [("u1", opts)])
    /\ headers resp !! "Next_link" = Some (HStr (page_link "/user/uploads" 25 25))
    /\ userUploadsGet JS.Date_parse_ISO (follow request 25 25) (example_env 25 60) []
       = (r, [("u1", opts')])
    /\ before opts' = before opts /\ after opts' = after opts
    /\ sortBy opts' = sortBy opts /\ sortOrder opts' = sortOrder opts.
Proof.
  cbv zeta. split; [reflexivity|].
  exists (example_response 25 0 25 60),
    (options_of JS.Date_parse_ISO [("sortBy", "Date")]),
    (options_of JS.Date_parse_ISO [("size", "25"); ("offset", "25")]),
    (Normal (example_response 25 25 25 60)).
  split; [vm_compute; reflexivity|]. split; [vm_compute; reflexivity|].
  split; [vm_compute; reflexivity|]. repeat split.
Qed.

(** ** Prefix parsing *)

Lemma parseDigits_prefix (d rest : string) (c : ascii) :
  JS.radixDigit 10 c = None -> all_decimal d = true ->
  forall acc, JS.parseDigits 10 (d +:+ String c rest) acc = JS.parseDigits 10 d acc.
Proof.
  intros Hc. induction d as [|a d IH]; intros Hd acc.
  - change (EmptyString +:+ String c rest) with (String c rest).
    simpl. now rewrite Hc.
  - change (String a d +:+ String c rest) with (String a (d +:+ String c rest)).
    simpl in Hd |- *. destruct (JS.radixDigit 10 a); [|discriminate].
    now apply IH.
Qed.

(** On a string that begins with a decimal digit other than zero,
    [parseInt] reads decimal digits with no sign. *)
Lemma parseInt_literal (a : ascii) (s : string) :
  negb (Ascii.eqb a "0") = true -> JS.radixDigit 10 a <> None ->
  JS.parseInt (String a s) =
  match JS.parseDigits 10 (String a s) None with
  | None => JS.NaN
  | Some mathInt => JS.Num (1 * mathInt)
  end.
Proof.
  destruct a as [[] [] [] [] [] [] [] []]; intros Hz Ha; try discriminate Hz;
    try (exfalso; apply Ha; reflexivity); reflexivity.
Qed.

(** C10. A [size] or [offset] value that begins with an integer and goes on
    with other characters passes validation as that integer: [25abc] and
    [25.9] are both read as 25, and so is every decimal literal followed by
    a character that is not a digit. *)
Theorem parseInt_prefix_accepted :
  JS.parseInt "25abc" = JS.Num 25 /\ JS.parseInt "25.9" = JS.Num 25
  /\ (forall (Upload : Type) (Date_parse : string -> JS.Number)
        (env : Env Upload) (log : list StoreCall),
        validation_error Date_parse [("size", "25abc"); ("offset", "25.9")] = None
        /\ snd (userUploadsGet Date_parse
                  (example_request [("size", "25abc"); ("offset", "25.9")]) env log)
           = (log ++ [("u1", {| size := JS.Num 25; offset := JS.Num 25;
                                before := None; after := None;
                                sortBy := "Date"; sortOrder := "Desc" |})])%list)
  /\ (forall (d rest : string) (c : ascii),
        decimal_literal d = true -> JS.radixDigit 10 c = None ->
        JS.parseInt (d +:+ String c rest) = JS.parseInt d).
Proof.
  split; [reflexivity|]. split; [reflexivity|]. split.
  - intros Upload Date_parse env log. split; [reflexivity|].
    now rewrite run_store_called.
  - intros d rest c Hd Hc. destruct d as [|a d]; [discriminate|].
    unfold decimal_literal in Hd. apply andb_true_iff in Hd as [Hz Hall].
    change (String a d +:+ String c rest) with (String a (d +:+ String c rest)).
    rewrite !parseInt_literal by (assumption || (simpl in Hall; now destruct (JS.radixDigit 10 a))).
    change (String a (d +:+ String c rest)) with (String a d +:+ String c rest).
    now rewrite parseDigits_prefix.
Qed.

(** ** Further properties of [userUploadsGet] *)

Lemma has_is_get (sp : JS.URLSearchParams) (name : string) :
  JS.has sp name = match JS.get sp name with Some _ => true | None => false end.
Proof.
  destruct (JS.get sp name) as [v|] eqn:Hg.
  - now apply get_Some_has in Hg.
  - now apply get_None_has in Hg.
Qed.

Lemma response_of_no_other_header {Upload : Type} (path : string) (sz off : JS.Number)
    (data : UploadPage Upload) (k : string) :
  is_Some (headers (response_of path sz off data) !! k) ->
  In k ["Count"; "Size"; "Offset"; "Next_link"; "Prev_link"].
Proof.
  unfold response_of. cbv zeta.
  destruct (decide (k = "Count")) as [->|H1]; [simpl; auto 10|].
  destruct (decide (k = "Size")) as [->|H2]; [simpl; auto 10|].
  destruct (decide (k = "Offset")) as [->|H3]; [simpl; auto 10|].
  destruct (decide (k = "Next_link")) as [->|H4]; [simpl; auto 10|].
  destruct (decide (k = "Prev_link")) as [->|H5]; [simpl; auto 10|].
  destruct (JS.lt _ _), (JS.truthy off); cbn [headers JSONResponse]; intros [v Hv];
    simplify_map_eq.
Qed.

(** X1. A successful response is the store's page and nothing else: the
    body is the uploads the store returned, [Count] is the store's count,
    [Size] and [Offset] are the size and the offset the store was asked
    for, and there is no header besides these three and the two links. *)
Theorem response_shape {Upload : Type} (Date_parse : string -> JS.Number)
    (request : Request) (env : Env Upload) (log : list StoreCall)
    (resp : Response Upload) (log' : list StoreCall) :
  userUploadsGet Date_parse request env log = (Normal resp, log') ->
  exists (opts : ListOpts) (data : UploadPage Upload),
    log' = (log ++ [(_id (user (auth request)), opts)])%list
    /\ db_listUploads env (_id (user (auth request))) opts = Normal data
    /\ body resp = uploads data
    /\ headers resp !! "Count" = Some (HNum (count data))
    /\ headers resp !! "Size" = Some (HNum (size opts))
    /\ headers resp !! "Offset" = Some (HNum (offset opts))
    /\ forall k, is_Some (headers resp !! k) ->
         In k ["Count"; "Size"; "Offset"; "Next_link"; "Prev_link"].
Proof.
  intros H. apply userUploadsGet_Normal in H. cbv zeta in H.
  destruct H as (sz & off & data & _ & Hsz & _ & _ & Hoff & _ & _ & Hdb & -> & ->).
  exists (options_of Date_parse (searchParams (url request))), data.
  rewrite Hsz, Hoff.
  destruct (response_of_Count (pathname (url request)) (JS.Num sz) (JS.Num off) data)
    as (Hc1 & Hc2 & Hc3 & Hc4).
  repeat (split; [assumption || reflexivity|]).
  intros k. apply response_of_no_other_header.
Qed.

Lemma response_shape_witness :
  userUploadsGet JS.Date_parse_ISO (example_request [("size", "10"); ("offset", "30")])
      (example_env 10 100) []
    = (Normal (example_response 10 30 10 100),
       example_log [("size", "10"); ("offset", "30")])
  /\ exists (opts : ListOpts) (data : UploadPage unit),
    example_log [("size", "10"); ("offset", "30")] = ([] ++ [("u1", opts)])%list
    /\ db_listUploads (example_env 10 100) "u1" opts = Normal data
    /\ body (example_response 10 30 10 100) = uploads data
    /\ headers (example_response 10 30 10 100) !! "Count" = Some (HNum (count data))
    /\ headers (example_response 10 30 10 100) !! "Size" = Some (HNum (size opts))
    /\ headers (example_response 10 30 10 100) !! "Offset" = Some (HNum (offset opts))
    /\ forall k, is_Some (headers (example_response 10 30 10 100) !! k) ->
         In k ["Count"; "Size"; "Offset"; "Next_link"; "Prev_link"].
Proof.
  split; [vm_compute; reflexivity|].
  apply (response_shape JS.Date_parse_ISO
           (example_request [("size", "10"); ("offset", "30")]) (example_env 10 100) []).
  vm_compute; reflexivity.
Defined.

Lemma or_else_nonempty (x : option string) (d : string) :
  d <> "" -> JS.or_else x d <> "".
Proof. intros Hd. destruct x as [[|c s]|]; simpl; [assumption|discriminate|assumption]. Qed.

(** X2. Whatever the request and whatever the store answers, the handler
    calls the store at most once, and only for the caller's own id, for a
    size that is an integer of 1..1000 and an offset that is an integer of
    0..1000, with a sort column and a sort order that are not empty. *)
Theorem store_call_within_bounds {Upload : Type} (Date_parse : string -> JS.Number)
    (request : Request) (env : Env Upload) (log : list StoreCall) :
  let result := userUploadsGet Date_parse request env log in
  snd result = log
  \/ exists (opts : ListOpts) (sz off : Z),
       snd result = (log ++ [(_id (user (auth request)), opts)])%list
       /\ size opts = JS.Num sz /\ 1 <= sz <= 1000
       /\ offset opts = JS.Num off /\ 0 <= off <= 1000
       /\ sortBy opts <> "" /\ sortOrder opts <> "".
Proof.
  cbv zeta. set (sp := searchParams (url request)).
  destruct (validation_error Date_parse sp) as [e|] eqn:He.
  - left. now rewrite (run_validation_error Date_parse request env log e He).
  - right. rewrite (run_store_called Date_parse request env log He). fold sp.
    apply validation_error_None in He as (Hs & Ho & _ & _).
    apply (page_param_range _ "size" 25) in Hs as (sz & Hsz & Hs1 & Hs2).
    apply (page_param_range _ "offset" 0) in Ho as (off & Hoff & Ho1 & Ho2).
    exists (options_of Date_parse sp), sz, off. cbn [options_of size offset sortBy sortOrder].
    split; [reflexivity|]. split; [assumption|].
    split; [destruct (JS.has sp "size"); lia|]. split; [assumption|].
    split; [destruct (JS.has sp "offset"); lia|].
    split; apply or_else_nonempty; discriminate.
Qed.

(** X3. A run of the handler ends in exactly one of three ways: one of the
    four validation errors, with status 400 and the store untouched; the
    store's own error, thrown on unchanged after the one call; or a response
    whose body is the page the store returned.  It throws nothing else, and
    nothing of its own once the store has been called. *)
Theorem run_outcomes {Upload : Type} (Date_parse : string -> JS.Number)
    (request : Request) (env : Env Upload) (log : list StoreCall) :
  let result := userUploadsGet Date_parse request env log in
  let userId := _id (user (auth request)) in
  (exists msg,
     In msg ["invalid page size"; "invalid page offset"; "invalid before date";
             "invalid after date"]
     /\ result = (Throw (Error_with_status msg 400), log))
  \/ (exists (opts : ListOpts) (e : JSError),
        db_listUploads env userId opts = Throw e
        /\ result = (Throw e, (log ++ [(userId, opts)])%list))
  \/ (exists (opts : ListOpts) (data : UploadPage Upload) (resp : Response Upload),
        db_listUploads env userId opts = Normal data
        /\ result = (Normal resp, (log ++ [(userId, opts)])%list)
        /\ body resp = uploads data).
Proof.
  cbv zeta. rewrite userUploadsGet_run. cbv zeta.
  set (sp := searchParams (url request)).
  destruct (validation_error Date_parse sp) as [e|] eqn:He.
  - left. unfold validation_error in He.
    destruct (bad_size sp), (bad_offset sp), (bad_date Date_parse "before" sp),
      (bad_date Date_parse "after" sp); try discriminate He; injection He as <-;
      eexists; (split; [|reflexivity]); simpl; auto 10.
  - right. destruct (db_listUploads env _ _) as [data|e] eqn:Hdb.
    + right. do 3 eexists. split; [exact Hdb|]. split; [reflexivity|].
      apply response_of_Count.
    + left. do 2 eexists. split; [exact Hdb|reflexivity].
Qed.

(** X4. The sort column and the sort order are not validated: whenever the
    store is called, a [sortBy] (or [sortOrder]) that is present and not
    empty reaches it as it was sent, and one that is absent or empty reaches
    it as [Date] (or [Desc]). *)
Theorem sort_passed_through {Upload : Type} (Date_parse : string -> JS.Number)
    (request : Request) (env : Env Upload) (log : list StoreCall)
    (r : Completion (Response Upload)) (userId : string) (opts : ListOpts) :
  userUploadsGet Date_parse request env log = (r, (log ++ [(userId, opts)])%list) ->
  let sp := searchParams (url request) in
  (forall v, JS.get sp "sortBy" = Some v -> v <> "" -> sortBy opts = v)
  /\ (JS.get sp "sortBy" = None \/ JS.get sp "sortBy" = Some "" -> sortBy opts = "Date")
  /\ (forall v, JS.get sp "sortOrder" = Some v -> v <> "" -> sortOrder opts = v)
  /\ (JS.get sp "sortOrder" = None \/ JS.get sp "sortOrder" = Some "" ->
      sortOrder opts = "Desc").
Proof.
  intros H sp. apply run_log_grown in H as (_ & ->). fold sp.
  cbn [options_of sortBy sortOrder].
  split; [|split; [|split]].
  - intros v -> Hv. destruct v; [congruence|reflexivity].
  - intros [-> | ->]; reflexivity.
  - intros v -> Hv. destruct v; [congruence|reflexivity].
  - intros [-> | ->]; reflexivity.
Qed.

Lemma sort_passed_through_witness :
  run_example [("sortBy", "anything at all"); ("sortOrder", "")] 25 30
    = (Normal (example_response 25 0 25 30),
       ([] ++ [("u1", options_of JS.Date_parse_ISO
                        [("sortBy", "anything at all"); ("sortOrder", "")])])%list)
  /\ sortBy (options_of JS.Date_parse_ISO
               [("sortBy", "anything at all"); ("sortOrder", "")]) = "anything at all"
  /\ sortOrder (options_of JS.Date_parse_ISO
                  [("sortBy", "anything at all"); ("sortOrder", "")]) = "Desc".
Proof.
  split; [vm_compute; reflexivity|].
  destruct (sort_passed_through JS.Date_parse_ISO
              (example_request [("sortBy", "anything at all"); ("sortOrder", "")])
              (example_env 25 30) [] (Normal (example_response 25 0 25 30)) "u1"
              (options_of JS.Date_parse_ISO
                 [("sortBy", "anything at all"); ("sortOrder", "")]))
    as (Hby & _ & _ & Horder); [vm_compute; reflexivity|].
  split; [apply Hby; [reflexivity|discriminate]|apply Horder; right; reflexivity].
Defined.

(** X5. The handler reads six parameters and, of each, the first occurrence
    only: two requests of the same caller for the same path whose queries
    agree on the first value of [size], [offset], [before], [after],
    [sortBy] and [sortOrder] are answered alike, whatever else the queries
    hold (other parameters, later duplicates). *)
Theorem only_first_occurrences_read {Upload : Type} (Date_parse : string -> JS.Number)
    (request1 request2 : Request) (env : Env Upload) (log : list StoreCall) :
  pathname (url request1) = pathname (url request2) ->
  _id (user (auth request1)) = _id (user (auth request2)) ->
  (forall name,
     In name ["size"; "offset"; "before"; "after"; "sortBy"; "sortOrder"] ->
     JS.get (searchParams (url request1)) name
     = JS.get (searchParams (url request2)) name) ->
  userUploadsGet Date_parse request1 env log = userUploadsGet Date_parse request2 env log.
Proof.
  intros Hpath Hid Hget. rewrite !userUploadsGet_run. cbv zeta.
  set (sp1 := searchParams (url request1)). set (sp2 := searchParams (url request2)).
  assert (forall name,
            In name ["size"; "offset"; "before"; "after"; "sortBy"; "sortOrder"] ->
            JS.has sp1 name = JS.has sp2 name) as Hhas.
  { intros name Hin. rewrite !has_is_get. unfold sp1, sp2. now rewrite (Hget name Hin). }
  assert (validation_error Date_parse sp1 = validation_error Date_parse sp2) as Hval.
  { unfold validation_error, bad_size, bad_offset, bad_date.
    rewrite (Hhas "size"), (Hhas "offset"), (Hhas "before"), (Hhas "after")
      by (simpl; auto 10).
    unfold sp1, sp2.
    rewrite (Hget "size"), (Hget "offset"), (Hget "before"), (Hget "after")
      by (simpl; auto 10).
    reflexivity. }
  assert (options_of Date_parse sp1 = options_of Date_parse sp2) as Hopts.
  { unfold options_of, page_param, date_param.
    rewrite (Hhas "size"), (Hhas "offset"), (Hhas "before"), (Hhas "after")
      by (simpl; auto 10).
    unfold sp1, sp2.
    rewrite (Hget "size"), (Hget "offset"), (Hget "before"), (Hget "after"),
      (Hget "sortBy"), (Hget "sortOrder") by (simpl; auto 10).
    reflexivity. }
  now rewrite Hval, Hopts, Hpath, Hid.
Qed.

Lemma only_first_occurrences_read_witness :
  run_example [("utm_source", "mail"); ("size", "10"); ("size", "5000"); ("page", "2")]
    25 30
  = run_example [("size", "10")] 25 30.
Proof.
  apply (only_first_occurrences_read JS.Date_parse_ISO
           (example_request [("utm_source", "mail"); ("size", "10"); ("size", "5000");
                             ("page", "2")])
           (example_request [("size", "10")]) (example_env 25 30) []);
    [reflexivity|reflexivity|].
  intros name Hin. simpl in Hin.
  repeat (destruct Hin as [<-|Hin]; [reflexivity|]). destruct Hin.
Defined.

(** X6. Following a link: the request for the URL of an emitted link passes
    validation exactly when the offset in the link is an integer of 1..1000,
    and the store is then asked for the same size at that offset, with no
    filter and the default sort.  So the next link is good as long as
    offset + size does not exceed 1000, and the previous link only when the
    offset exceeds the size: the link back to offset 0 is one the handler
    rejects. *)
Theorem following_a_link {Upload : Type} (Date_parse : string -> JS.Number)
    (request : Request) (env : Env Upload) (log : list StoreCall)
    (resp : Response Upload) (log' : list StoreCall)
    (key : string) (v : HeaderValue) :
  userUploadsGet Date_parse request env log = (Normal resp, log') ->
  key = "Next_link" \/ key = "Prev_link" ->
  headers resp !! key = Some v ->
  exists (sz off target : Z),
    headers resp !! "Size" = Some (HNum (JS.Num sz))
    /\ headers resp !! "Offset" = Some (HNum (JS.Num off))
    /\ target = (if String.eqb key "Next_link" then off + sz else off - sz)
    /\ v = HStr (page_link (pathname (url request)) sz target)
    /\ forall (env2 : Env Upload) (log2 : list StoreCall),
         let result := userUploadsGet Date_parse (follow request sz target) env2 log2 in
         (1 <= target <= 1000 ->
          snd result
          = (log2 ++ [(_id (user (auth request)),
                       {| size := JS.Num sz; offset := JS.Num target;
                          before := None; after := None;
                          sortBy := "Date"; sortOrder := "Desc" |})])%list)
         /\ (target <= 0 \/ 1000 < target ->
             result = (Throw (Error_with_status "invalid page offset" 400), log2)).
Proof.
  intros H Hkey Hv. apply success_page in H.
  destruct H as (sz & off & opts & data & _ & _ & _ & Hsz & _ & _ & _
                 & _ & Hsize & Hoffset & Hnext & Hprev).
  set (target := if String.eqb key "Next_link" then off + sz else off - sz).
  exists sz, off, target. split; [assumption|]. split; [assumption|].
  split; [reflexivity|]. split.
  - destruct Hkey as [-> | ->]; subst target; simpl.
    + rewrite Hnext in Hv. destruct (JS.lt _ _); congruence.
    + rewrite Hprev in Hv. destruct (negb _); congruence.
  - intros env2 log2. cbv zeta.
    pose proof (follow_validation Date_parse request sz target Hsz) as Hval.
    split.
    + intros Ht.
      assert ((1 <=? target) && (target <=? 1000) = true) as Hb
        by (apply andb_true_iff; split; apply Z.leb_le; lia).
      rewrite Hb in Hval. rewrite (run_store_called Date_parse _ env2 log2 Hval).
      do 3 f_equal. unfold options_of, page_param, date_param, follow.
      cbn [url searchParams auth].
      change (JS.has _ "size") with true. change (JS.has _ "offset") with true.
      change (JS.has _ "before") with false. change (JS.has _ "after") with false.
      cbv iota.
      change (JS.ToString (JS.get _ "size")) with (JS.Z_toString sz).
      change (JS.ToString (JS.get _ "offset")) with (JS.Z_toString target).
      now rewrite !parseInt_Z_toString.
    + intros Ht.
      assert ((1 <=? target) && (target <=? 1000) = false) as Hb.
      { apply andb_false_iff. destruct Ht; [left|right]; apply Z.leb_gt; lia. }
      rewrite Hb in Hval. now apply run_validation_error.
Qed.

Lemma following_a_link_witness :
  userUploadsGet JS.Date_parse_ISO
      (example_request [("size", "25"); ("offset", "25")]) (example_env 25 100) []
    = (Normal (example_response 25 25 25 100),
       example_log [("size", "25"); ("offset", "25")])
  /\ headers (example_response 25 25 25 100) !! "Prev_link"
     = Some (HStr (page_link "/user/uploads" 25 0))
  /\ userUploadsGet JS.Date_parse_ISO
       (follow (example_request [("size", "25"); ("offset", "25")]) 25 0)
       (example_env 25 100) []
     = (Throw (Error_with_status "invalid page offset" 400), []).
Proof.
  split; [vm_compute; reflexivity|]. split; [vm_compute; reflexivity|].
  destruct (following_a_link JS.Date_parse_ISO
              (example_request [("size", "25"); ("offset", "25")]) (example_env 25 100) []
              (example_response 25 25 25 100)
              (example_log [("size", "25"); ("offset", "25")])
              "Prev_link" (HStr (page_link "/user/uploads" 25 0)))
    as (sz & off & target & Hsize & Hoffset & Htarget & _ & Hfollow);
    [vm_compute; reflexivity|right; reflexivity|vm_compute; reflexivity|].
  assert (sz = 25) as -> by (vm_compute in Hsize; congruence).
  assert (off = 25) as -> by (vm_compute in Hoffset; congruence).
  simpl in Htarget. subst target.
  apply (Hfollow (example_env 25 100) []). left. lia.
Defined.

(** ** [parseMagic]: the name of a user from the email *)

Lemma split_not_nil (sep : ascii) (s : string) : split sep s <> [].
Proof.
  induction s as [|c r IH]; simpl; [discriminate|].
  destruct (Ascii.eqb c sep); [discriminate|].
  destruct (split sep r); [congruence|discriminate].
Qed.

(** Joining what was split gives the string back. *)
Lemma join_split (sep : ascii) (s : string) : join sep (split sep s) = s.
Proof.
  induction s as [|c r IH]; [reflexivity|]. simpl split.
  destruct (Ascii.eqb c sep) eqn:Hc.
  - apply Ascii.eqb_eq in Hc as ->.
    pose proof (split_not_nil sep r) as Hne.
    destruct (split sep r) as [|p ps] eqn:Hs; [congruence|].
    change (join sep (EmptyString :: p :: ps))
      with (EmptyString +:+ String sep (join sep (p :: ps))).
    now rewrite IH.
  - pose proof (split_not_nil sep r) as Hne.
    destruct (split sep r) as [|p ps] eqn:Hs; [congruence|].
    destruct ps as [|q qs].
    + simpl in IH |- *. now rewrite IH.
    + change (join sep (String c p :: q :: qs))
        with (String c (p +:+ String sep (join sep (q :: qs)))).
      change (join sep (p :: q :: qs))
        with (p +:+ String sep (join sep (q :: qs))) in IH.
      now rewrite IH.
Qed.

(** The first piece of a split holds no separator; it is the whole string
    when the string holds none, and is followed by a separator otherwise. *)
Lemma split_head (sep : ascii) (s : string) :
  exists (n : string) (pieces : list string),
    split sep s = n :: pieces
    /\ has_char sep n = false
    /\ (has_char sep s = false -> n = s /\ pieces = [])
    /\ (has_char sep s = true -> exists rest, s = n +:+ String sep rest).
Proof.
  induction s as [|c r IH].
  - exists EmptyString, []. repeat split; try reflexivity; discriminate.
  - destruct IH as (n & pieces & Hs & Hn & Hnone & Hsome). simpl split. simpl has_char.
    destruct (Ascii.eqb c sep) eqn:Hc.
    + apply Ascii.eqb_eq in Hc as ->.
      exists EmptyString, (split sep r). repeat split; try reflexivity; try discriminate.
      intros _. now exists r.
    + rewrite Hs. exists (String c n), pieces. simpl. rewrite Hc. simpl.
      split; [reflexivity|]. split; [assumption|]. split.
      * intros Hr. destruct (Hnone Hr) as [-> ->]. now split.
      * intros Hr. destruct (Hsome Hr) as (rest & ->). now exists rest.
Qed.

(** X7. [parseMagic] names a user after the part of the email before its
    first [@]: the name holds no [@], is the whole email when the email
    holds none, and is followed by [@] in the email otherwise (so an email
    that begins with [@] gives the empty name); the picture is empty, there
    is no [github] key, and issuer, email and address are the metadata's. *)
Theorem parseMagic_name (metadata : Metadata.t) (email : string) :
  Metadata.email metadata = Some email ->
  exists n : string,
    parseMagic metadata
    = Normal {| Parsed.name := Some (JStr n);
                Parsed.picture := Some (JStr "");
                Parsed.issuer := Metadata.issuer metadata;
                Parsed.email := Some email;
                Parsed.github := None;
                Parsed.publicAddress := Metadata.publicAddress metadata |}
    /\ has_char "@" n = false
    /\ (has_char "@" email = false -> n = email)
    /\ (has_char "@" email = true -> exists rest, email = n +:+ "@" +:+ rest).
Proof.
  intros He. unfold parseMagic. rewrite He.
  destruct (split_head "@" email) as (n & pieces & Hs & Hn & Hnone & Hsome).
  exists n. rewrite Hs. simpl. split; [reflexivity|]. split; [assumption|].
  split; [intros H; now destruct (Hnone H)|exact Hsome].
Qed.

Lemma parseMagic_name_witness :
  Metadata.email (example_metadata "alice@example.org") = Some "alice@example.org"
  /\ exists n : string,
       parseMagic (example_metadata "alice@example.org")
       = Normal {| Parsed.name := Some (JStr n);
                   Parsed.picture := Some (JStr "");
                   Parsed.issuer := Some "did:ethr:0x01";
                   Parsed.email := Some "alice@example.org";
                   Parsed.github := None;
                   Parsed.publicAddress := Some "0x01" |}
       /\ has_char "@" n = false
       /\ (has_char "@" "alice@example.org" = false -> n = "alice@example.org")
       /\ (has_char "@" "alice@example.org" = true ->
           exists rest, "alice@example.org" = n +:+ "@" +:+ rest).
Proof.
  split; [reflexivity|].
  apply (parseMagic_name (example_metadata "alice@example.org") "alice@example.org").
  reflexivity.
Defined.

(** ** [parseGitHub] *)

Lemma value_or_empty (v : Value) :
  let r := value_or v (Some (JStr "")) in
  (ToBoolean v = true /\ r = v) \/ (ToBoolean v = false /\ r = Some (JStr "")).
Proof. cbv zeta. unfold value_or. destruct (ToBoolean v); auto. Qed.

(** X8. [parseGitHub] throws a [TypeError] exactly when the login data, its
    [oauth] or the [userInfo] of that is [undefined] or [null].  Otherwise
    it returns a record whose name and picture are those of [userInfo] when
    truthy and the empty string when not (so never [undefined] or [null]),
    whose [github] is [oauth.userHandle] as it is, and whose issuer, email
    and address are the metadata's. *)
Theorem parseGitHub_record (data : Value) (metadata : Metadata.t) :
  (nullish data = true -> parseGitHub data metadata = Throw TypeError)
  /\ (forall oauth, get_prop data "oauth" = Normal oauth -> nullish oauth = true ->
      parseGitHub data metadata = Throw TypeError)
  /\ (forall oauth userInfo,
        get_prop data "oauth" = Normal oauth ->
        get_prop oauth "userInfo" = Normal userInfo -> nullish userInfo = true ->
        parseGitHub data metadata = Throw TypeError)
  /\ (forall oauth userInfo name picture userHandle,
        get_prop data "oauth" = Normal oauth ->
        get_prop oauth "userInfo" = Normal userInfo ->
        get_prop userInfo "name" = Normal name ->
        get_prop userInfo "picture" = Normal picture ->
        get_prop oauth "userHandle" = Normal userHandle ->
        exists n p,
          parseGitHub data metadata
          = Normal {| Parsed.name := n; Parsed.picture := p;
                      Parsed.issuer := Metadata.issuer metadata;
                      Parsed.email := Metadata.email metadata;
                      Parsed.github := Some userHandle;
                      Parsed.publicAddress := Metadata.publicAddress metadata |}
          /\ ((ToBoolean name = true /\ n = name)
              \/ (ToBoolean name = false /\ n = Some (JStr "")))
          /\ ((ToBoolean picture = true /\ p = picture)
              \/ (ToBoolean picture = false /\ p = Some (JStr "")))
          /\ nullish n = false /\ nullish p = false)
  /\ (forall e, parseGitHub data metadata = Throw e ->
      e = TypeError
      /\ (nullish data = true
          \/ (exists oauth, get_prop data "oauth" = Normal oauth
                /\ (nullish oauth = true
                    \/ exists userInfo, get_prop oauth "userInfo" = Normal userInfo
                         /\ nullish userInfo = true)))).
Proof.
  assert (forall v k, nullish v = true -> get_prop v k = Throw TypeError) as Hnull.
  { intros [[| | | | |]|] k H; try discriminate H; reflexivity. }
  assert (forall v k, nullish v = false -> exists r, get_prop v k = Normal r) as Hdef.
  { intros [[| | | | |]|] k H; try discriminate H; simpl; eauto. }
  assert (forall v, nullish (value_or v (Some (JStr ""))) = false) as Hor.
  { intros v. unfold value_or. destruct (ToBoolean v) eqn:Hv; [|reflexivity].
    destruct v as [[| | | | |]|]; try discriminate Hv; reflexivity. }
  split; [|split; [|split; [|split]]].
  - intros H. unfold parseGitHub. now rewrite (Hnull _ _ H).
  - intros oauth Ho H. unfold parseGitHub. rewrite Ho. simpl. now rewrite (Hnull _ _ H).
  - intros oauth userInfo Ho Hu H. unfold parseGitHub. rewrite Ho. simpl.
    rewrite Hu. simpl. now rewrite (Hnull _ _ H).
  - intros oauth userInfo name picture userHandle Ho Hu Hn Hp Hh.
    unfold parseGitHub. rewrite Ho. simpl. rewrite Hu. simpl. rewrite Hn. simpl.
    rewrite Hp. simpl. rewrite Hh. simpl.
    do 2 eexists. split; [reflexivity|].
    split; [apply value_or_empty|]. split; [apply value_or_empty|]. split; apply Hor.
  - intros e. unfold parseGitHub.
    destruct (nullish data) eqn:Hd.
    { rewrite (Hnull _ _ Hd). simpl. intros [= <-]. auto. }
    destruct (Hdef _ "oauth" Hd) as (oauth & Ho). rewrite Ho. simpl.
    destruct (nullish oauth) eqn:Hno.
    { rewrite (Hnull _ _ Hno). simpl. intros [= <-]. split; [reflexivity|].
      right. exists oauth. auto. }
    destruct (Hdef _ "userInfo" Hno) as (userInfo & Hu). rewrite Hu. simpl.
    destruct (nullish userInfo) eqn:Hnu.
    { rewrite (Hnull _ _ Hnu). simpl. intros [= <-]. split; [reflexivity|].
      right. exists oauth. split; [reflexivity|]. right. exists userInfo. auto. }
    destruct (Hdef _ "name" Hnu) as (name & Hn). rewrite Hn. simpl.
    destruct (Hdef _ "picture" Hnu) as (picture & Hp). rewrite Hp. simpl.
    destruct (Hdef _ "userHandle" Hno) as (handle & Hh). rewrite Hh. simpl.
    discriminate.
Qed.

Lemma parseGitHub_record_witness :
  let data :=
    Some (JObj [("oauth",
                 JObj [("userInfo", JObj [("name", JStr "Alice"); ("picture", JNull)]);
                       ("userHandle", JStr "alice-gh")])]) in
  exists n p,
    parseGitHub data (example_metadata "alice@example.org")
    = Normal {| Parsed.name := n; Parsed.picture := p;
                Parsed.issuer := Some "did:ethr:0x01";
                Parsed.email := Some "alice@example.org";
                Parsed.github := Some (Some (JStr "alice-gh"));
                Parsed.publicAddress := Some "0x01" |}
    /\ ((ToBoolean (Some (JStr "Alice")) = true /\ n = Some (JStr "Alice"))
        \/ (ToBoolean (Some (JStr "Alice")) = false /\ n = Some (JStr "")))
    /\ ((ToBoolean (Some JNull) = true /\ p = Some JNull)
        \/ (ToBoolean (Some JNull) = false /\ p = Some (JStr "")))
    /\ nullish n = false /\ nullish p = false.
Proof.
  cbv zeta.
  refine (proj1 (proj2 (proj2 (proj2 (parseGitHub_record _ (example_metadata "alice@example.org")))))
            _ _ (Some (JStr "Alice")) (Some JNull) (Some (JStr "alice-gh")) _ _ _ _ _);
    reflexivity.
Defined.

(** ** [loginOrRegister] and [userLoginPost] *)

Section Login.

Context {Key : Type}.

Implicit Types (request : Http.request) (env : AccountEnv Key) (log : list Call).

(** [loginOrRegister], step by step: it stops at the first collaborator that
    throws, at incomplete metadata, and at a body that cannot be parsed. *)
Lemma loginOrRegister_run request env log :
  loginOrRegister request env log =
  let header := JS.or_else (Http.Authorization request) "" in
  match Http.json request with
  | Throw e => (Throw e, log)
  | Normal data =>
      match magic_utils_parseAuthorizationHeader env header with
      | Throw e => (Throw e, (log ++ [ParseAuthorizationHeader header])%list)
      | Normal token =>
          match magic_token_validate env token with
          | Throw e =>
              (Throw e,
               (log ++ [ParseAuthorizationHeader header; TokenValidate token])%list)
          | Normal _ =>
              match magic_users_getMetadataByToken env token with
              | Throw e => (Throw e, (log ++ magic_calls header token)%list)
              | Normal metadata =>
                  if complete metadata then
                    match parsed_of data metadata with
                    | Throw e => (Throw e, (log ++ magic_calls header token)%list)
                    | Normal parsed =>
                        (db_upsertUser env parsed,
                         (log ++ magic_calls header token ++ [UpsertUser parsed])%list)
                    end
                  else (Throw (Error "missing required metadata"),
                        (log ++ magic_calls header token)%list)
              end
          end
      end
  end.
Proof.
  unfold loginOrRegister, eff_bind, eff_call, eff_lift, eff_throw, eff_ret,
    magic_calls, complete, parsed_of.
  cbv zeta.
  destruct (Http.json request) as [data|e]; [|reflexivity].
  destruct (magic_utils_parseAuthorizationHeader env _) as [token|e]; [|reflexivity].
  destruct (magic_token_validate env token) as [u|e];
    [|now rewrite <- app_assoc].
  destruct (magic_users_getMetadataByToken env token) as [metadata|e];
    [|now rewrite <- !app_assoc].
  destruct (string_truthy (Metadata.issuer metadata)),
    (string_truthy (Metadata.email metadata)),
    (string_truthy (Metadata.publicAddress metadata)); cbn [negb orb andb];
    try (now rewrite <- !app_assoc).
  destruct (get_prop (Some data) "type") as [type|e]; cbn [cbind];
    [|now rewrite <- !app_assoc].
  match goal with
  | |- context [match ?c with Normal _ => _ | Throw _ => _ end] =>
      destruct c as [parsed|e]
  end.
  - destruct (db_upsertUser env parsed); now rewrite <- !app_assoc.
  - now rewrite <- !app_assoc.
Qed.

Lemma userLoginPost_run request env log :
  userLoginPost request env log =
  match loginOrRegister request env log with
  | (Normal u, log') =>
      (Normal {| reply_body := JObj [("issuer", JStr (issuer u))]; reply_status := 200 |},
       log')
  | (Throw e, log') => (Throw e, log')
  end.
Proof.
  unfold userLoginPost, eff_bind, eff_ret.
  now destruct (loginOrRegister request env log) as [[u|e] log'].
Qed.

Lemma string_truthy_Some (s : option string) :
  string_truthy s = true <-> exists v, s = Some v /\ v <> "".
Proof.
  destruct s as [v|]; simpl.
  - rewrite negb_true_iff, String.eqb_neq. split; [eauto|]. now intros (v' & [= <-] & H).
  - split; [discriminate|]. now intros (v & H & _).
Qed.

(** What a body and metadata are parsed to carries the metadata's issuer,
    email and address, and a name and a picture that are not [undefined]
    or [null]. *)
Lemma parsed_of_fields (data : JSON) (metadata : Metadata.t) (parsed : Parsed.t) :
  parsed_of data metadata = Normal parsed ->
  Parsed.issuer parsed = Metadata.issuer metadata
  /\ Parsed.email parsed = Metadata.email metadata
  /\ Parsed.publicAddress parsed = Metadata.publicAddress metadata
  /\ nullish (Parsed.name parsed) = false
  /\ nullish (Parsed.picture parsed) = false.
Proof.
  assert (forall m p, parseMagic m = Normal p ->
            Parsed.issuer p = Metadata.issuer m /\ Parsed.email p = Metadata.email m
            /\ Parsed.publicAddress p = Metadata.publicAddress m
            /\ nullish (Parsed.name p) = false /\ nullish (Parsed.picture p) = false)
    as Hmagic.
  { intros m p. unfold parseMagic. destruct (Metadata.email m) as [e|] eqn:He;
      [|discriminate].
    destruct (split_head "@" e) as (n & pieces & Hs & _). rewrite Hs. simpl.
    intros [= <-]. simpl. auto. }
  assert (forall d m p, parseGitHub d m = Normal p ->
            Parsed.issuer p = Metadata.issuer m /\ Parsed.email p = Metadata.email m
            /\ Parsed.publicAddress p = Metadata.publicAddress m
            /\ nullish (Parsed.name p) = false /\ nullish (Parsed.picture p) = false)
    as Hgithub.
  { intros d m p. unfold parseGitHub.
    destruct (get_prop d "oauth") as [oauth|]; [|discriminate]. cbn [cbind].
    destruct (get_prop oauth "userInfo") as [userInfo|]; [|discriminate]. cbn [cbind].
    destruct (get_prop userInfo "name") as [name|]; [|discriminate]. cbn [cbind].
    destruct (get_prop userInfo "picture") as [picture|]; [|discriminate]. cbn [cbind].
    destruct (get_prop oauth "userHandle") as [handle|]; [|discriminate]. cbn [cbind].
    intros [= <-]. cbn [Parsed.issuer Parsed.email Parsed.publicAddress Parsed.name
                        Parsed.picture].
    repeat split; unfold value_or.
    - destruct (ToBoolean name) eqn:Hv; [|reflexivity].
      destruct name as [[| | | | |]|]; try discriminate Hv; reflexivity.
    - destruct (ToBoolean picture) eqn:Hv; [|reflexivity].
      destruct picture as [[| | | | |]|]; try discriminate Hv; reflexivity. }
  unfold parsed_of.
  destruct (get_prop (Some data) "type") as [type|]; [|discriminate]. cbn [cbind].
  assert (forall c : Completion Parsed.t,
            (c = parseMagic metadata
             \/ c = (let? data_data := get_prop (Some data) "data" in
                     parseGitHub data_data metadata)) ->
            c = Normal parsed ->
            Parsed.issuer parsed = Metadata.issuer metadata
            /\ Parsed.email parsed = Metadata.email metadata
            /\ Parsed.publicAddress parsed = Metadata.publicAddress metadata
            /\ nullish (Parsed.name parsed) = false
            /\ nullish (Parsed.picture parsed) = false) as Hboth.
  { intros c [-> | ->] Hc; [now apply Hmagic|].
    destruct (get_prop (Some data) "data") as [d|]; [|discriminate].
    now apply (Hgithub d). }
  intros H. eapply Hboth; [|exact H].
  destruct type as [[| | |s| |]|]; auto.
  repeat (destruct s as [|[[] [] [] [] [] [] [] []] s]; auto).
Qed.

(** X9. A login that fails leaves the database alone.  [userLoginPost]
    throws what [request.json()] threw with no call made; what the Magic
    SDK threw on the header, on the token or on the metadata lookup, with
    no call made after the one that threw (so the metadata of a token that
    does not validate is never fetched); [missing required metadata], an
    error without a status, when issuer, email or address is missing or
    empty; and the [TypeError] of a body that cannot be read: in none of
    these is [upsertUser] called. *)
Theorem login_rejected_before_database (request : Http.request)
    (env : AccountEnv Key) (log : list Call) :
  let header := JS.or_else (Http.Authorization request) "" in
  let result := userLoginPost request env log in
  (forall e, Http.json request = Throw e -> result = (Throw e, log))
  /\ (forall data e, Http.json request = Normal data ->
      magic_utils_parseAuthorizationHeader env header = Throw e ->
      result = (Throw e, (log ++ [ParseAuthorizationHeader header])%list))
  /\ (forall data token e, Http.json request = Normal data ->
      magic_utils_parseAuthorizationHeader env header = Normal token ->
      magic_token_validate env token = Throw e ->
      result
      = (Throw e, (log ++ [ParseAuthorizationHeader header; TokenValidate token])%list))
  /\ (forall data token e, Http.json request = Normal data ->
      magic_utils_parseAuthorizationHeader env header = Normal token ->
      magic_token_validate env token = Normal tt ->
      magic_users_getMetadataByToken env token = Throw e ->
      result = (Throw e, (log ++ magic_calls header token)%list))
  /\ (forall data token metadata, Http.json request = Normal data ->
      magic_utils_parseAuthorizationHeader env header = Normal token ->
      magic_token_validate env token = Normal tt ->
      magic_users_getMetadataByToken env token = Normal metadata ->
      (string_truthy (Metadata.issuer metadata) = false
       \/ string_truthy (Metadata.email metadata) = false
       \/ string_truthy (Metadata.publicAddress metadata) = false) ->
      result = (Throw {| message := "missing required metadata"; status := None |},
                (log ++ magic_calls header token)%list))
  /\ (forall data token metadata e, Http.json request = Normal data ->
      magic_utils_parseAuthorizationHeader env header = Normal token ->
      magic_token_validate env token = Normal tt ->
      magic_users_getMetadataByToken env token = Normal metadata ->
      complete metadata = true ->
      parsed_of data metadata = Throw e ->
      result = (Throw e, (log ++ magic_calls header token)%list)).
Proof.
  cbv zeta. rewrite userLoginPost_run, loginOrRegister_run. cbv zeta.
  repeat split.
  - intros e ->. reflexivity.
  - intros data e -> ->. reflexivity.
  - intros data token e -> -> ->. reflexivity.
  - intros data token e -> -> -> ->. reflexivity.
  - intros data token metadata -> -> -> -> Hmissing.
    assert (complete metadata = false) as ->; [|reflexivity].
    unfold complete. destruct Hmissing as [-> | [-> | ->]]; simpl;
      repeat (rewrite ?andb_false_r, ?andb_false_l); reflexivity.
  - intros data token metadata e -> -> -> -> -> ->. reflexivity.
Qed.

(** X10. [userLoginPost] creates or updates a user only after the token of
    the [Authorization] header (the empty string when there is no header)
    was parsed and validated and its metadata was fetched, in that order,
    and only when the metadata's issuer, email and address are all present
    and not empty; the record it hands to [upsertUser] carries exactly
    those three, and a name and a picture that are not [undefined] or
    [null]. *)
Theorem login_upserts_only_verified (request : Http.request)
    (env : AccountEnv Key) (log trace : list Call) (parsed : Parsed.t) :
  snd (userLoginPost request env log) = (log ++ trace)%list ->
  In (UpsertUser parsed) trace ->
  let header := JS.or_else (Http.Authorization request) "" in
  exists (data : JSON) (token : string) (metadata : Metadata.t) (i e a : string),
    Http.json request = Normal data
    /\ magic_utils_parseAuthorizationHeader env header = Normal token
    /\ magic_token_validate env token = Normal tt
    /\ magic_users_getMetadataByToken env token = Normal metadata
    /\ Metadata.issuer metadata = Some i /\ i <> ""
    /\ Metadata.email metadata = Some e /\ e <> ""
    /\ Metadata.publicAddress metadata = Some a /\ a <> ""
    /\ Parsed.issuer parsed = Some i /\ Parsed.email parsed = Some e
    /\ Parsed.publicAddress parsed = Some a
    /\ nullish (Parsed.name parsed) = false /\ nullish (Parsed.picture parsed) = false
    /\ trace = (magic_calls header token ++ [UpsertUser parsed])%list.
Proof.
  intros Hlog Hin. cbv zeta.
  rewrite userLoginPost_run, loginOrRegister_run in Hlog. cbv zeta in Hlog.
  set (header := JS.or_else (Http.Authorization request) "") in *.
  destruct (Http.json request) as [data|e0] eqn:Hjson.
  2:{ simpl in Hlog. rewrite <- (app_nil_r log) in Hlog at 1.
      apply app_inv_head in Hlog. subst trace. destruct Hin. }
  destruct (magic_utils_parseAuthorizationHeader env header) as [token|e0] eqn:Hparse.
  2:{ simpl in Hlog. apply app_inv_head in Hlog. subst trace.
      simpl in Hin. destruct Hin as [Hin|[]]. discriminate Hin. }
  destruct (magic_token_validate env token) as [[]|e0] eqn:Hvalid.
  2:{ simpl in Hlog. apply app_inv_head in Hlog. subst trace.
      simpl in Hin. destruct Hin as [Hin|[Hin|[]]]; discriminate Hin. }
  destruct (magic_users_getMetadataByToken env token) as [metadata|e0] eqn:Hmeta.
  2:{ simpl in Hlog. apply app_inv_head in Hlog. subst trace.
      simpl in Hin. destruct Hin as [Hin|[Hin|[Hin|[]]]]; discriminate Hin. }
  destruct (complete metadata) eqn:Hc.
  2:{ simpl in Hlog. apply app_inv_head in Hlog. subst trace.
      simpl in Hin. destruct Hin as [Hin|[Hin|[Hin|[]]]]; discriminate Hin. }
  destruct (parsed_of data metadata) as [parsed'|e0] eqn:Hp.
  2:{ simpl in Hlog. apply app_inv_head in Hlog. subst trace.
      simpl in Hin. destruct Hin as [Hin|[Hin|[Hin|[]]]]; discriminate Hin. }
  assert (trace = (magic_calls header token ++ [UpsertUser parsed'])%list) as ->.
  { destruct (db_upsertUser env parsed'); simpl in Hlog;
      apply app_inv_head in Hlog; now subst trace. }
  assert (parsed' = parsed) as ->.
  { simpl in Hin. destruct Hin as [Hin|[Hin|[Hin|[Hin|[]]]]]; congruence. }
  unfold complete in Hc. apply andb_true_iff in Hc as [Hc Ha].
  apply andb_true_iff in Hc as [Hi He].
  apply string_truthy_Some in Hi as (i & Hi & Hi').
  apply string_truthy_Some in He as (e & He & He').
  apply string_truthy_Some in Ha as (a & Ha & Ha').
  destruct (parsed_of_fields data metadata parsed Hp) as (F1 & F2 & F3 & F4 & F5).
  exists data, token, metadata, i, e, a.
  repeat split; try assumption; try reflexivity; congruence.
Qed.

(** X11. A login that passes every check is answered with the issuer of
    the user the database returned, with status 200, after the three Magic
    calls and one [upsertUser].  The record is [parseGitHub]'s when the
    body's [type] is the string [github] and [parseMagic]'s for every other
    body that is not [null], whatever else it holds. *)
Theorem login_success (request : Http.request) (env : AccountEnv Key)
    (log : list Call) (data : JSON) (token : string) (metadata : Metadata.t)
    (parsed : Parsed.t) (u : User) :
  let header := JS.or_else (Http.Authorization request) "" in
  Http.json request = Normal data ->
  magic_utils_parseAuthorizationHeader env header = Normal token ->
  magic_token_validate env token = Normal tt ->
  magic_users_getMetadataByToken env token = Normal metadata ->
  complete metadata = true ->
  parsed_of data metadata = Normal parsed ->
  db_upsertUser env parsed = Normal u ->
  userLoginPost request env log
  = (Normal {| reply_body := JObj [("issuer", JStr (issuer u))]; reply_status := 200 |},
     (log ++ magic_calls header token ++ [UpsertUser parsed])%list)
  /\ (get_prop (Some data) "type" = Normal (Some (JStr "github")) ->
      exists data_data, get_prop (Some data) "data" = Normal data_data
        /\ parseGitHub data_data metadata = Normal parsed)
  /\ (get_prop (Some data) "type" <> Normal (Some (JStr "github")) ->
      parseMagic metadata = Normal parsed /\ Parsed.github parsed = None).
Proof.
  cbv zeta. intros Hjson Hparse Hvalid Hmeta Hc Hp Hdb.
  rewrite userLoginPost_run, loginOrRegister_run. cbv zeta.
  rewrite Hjson, Hparse, Hvalid, Hmeta, Hc, Hp, Hdb.
  split; [reflexivity|]. unfold parsed_of in Hp. split.
  - intros Hty. rewrite Hty in Hp. cbn [cbind] in Hp.
    destruct (get_prop (Some data) "data") as [d|]; [|discriminate]. now exists d.
  - intros Hty. destruct (get_prop (Some data) "type") as [type|]; [|discriminate].
    cbn [cbind] in Hp.
    assert (parseMagic metadata = Normal parsed) as Hm.
    { destruct type as [[| | |s| |]|]; try exact Hp.
      destruct (String.eqb s "github") eqn:Hs.
      - apply String.eqb_eq in Hs as ->. exfalso. now apply Hty.
      - apply String.eqb_neq in Hs.
        repeat (destruct s as [|[[] [] [] [] [] [] [] []] s]; try exact Hp).
        exfalso. now apply Hs. }
    split; [exact Hm|]. unfold parseMagic in Hm.
    destruct (Metadata.email metadata); [|discriminate]. now injection Hm as <-.
Qed.

End Login.

Lemma login_rejected_before_database_witness :
  let env := example_account
               {| Metadata.issuer := Some "did:ethr:0x01"; Metadata.email := Some "";
                  Metadata.publicAddress := Some "0x01" |} None in
  userLoginPost (example_http (JObj [])) env []
  = (Throw {| message := "missing required metadata"; status := None |},
     ([] ++ magic_calls "Bearer t0k3n" "t0k3n")%list).
Proof.
  cbv zeta.
  apply (proj1 (proj2 (proj2 (proj2 (proj2
           (login_rejected_before_database (example_http (JObj []))
              (example_account
                 {| Metadata.issuer := Some "did:ethr:0x01"; Metadata.email := Some "";
                    Metadata.publicAddress := Some "0x01" |} None) [])))))
           (JObj []) "t0k3n"
           {| Metadata.issuer := Some "did:ethr:0x01"; Metadata.email := Some "";
              Metadata.publicAddress := Some "0x01" |}); try reflexivity.
  right. left. reflexivity.
Defined.

Lemma login_upserts_only_verified_witness :
  let env := example_account (example_metadata "alice@example.org") None in
  let parsed := {| Parsed.name := Some (JStr "alice"); Parsed.picture := Some (JStr "");
                   Parsed.issuer := Some "did:ethr:0x01";
                   Parsed.email := Some "alice@example.org";
                   Parsed.github := None; Parsed.publicAddress := Some "0x01" |} in
  snd (userLoginPost (example_http (JObj [("type", JStr "magic")])) env [])
  = ([] ++ (magic_calls "Bearer t0k3n" "t0k3n" ++ [UpsertUser parsed]))%list
  /\ exists (data : JSON) (token : string) (metadata : Metadata.t) (i e a : string),
    Http.json (example_http (JObj [("type", JStr "magic")])) = Normal data
    /\ magic_utils_parseAuthorizationHeader env "Bearer t0k3n" = Normal token
    /\ magic_token_validate env token = Normal tt
    /\ magic_users_getMetadataByToken env token = Normal metadata
    /\ Metadata.issuer metadata = Some i /\ i <> ""
    /\ Metadata.email metadata = Some e /\ e <> ""
    /\ Metadata.publicAddress metadata = Some a /\ a <> ""
    /\ Parsed.issuer parsed = Some i /\ Parsed.email parsed = Some e
    /\ Parsed.publicAddress parsed = Some a
    /\ nullish (Parsed.name parsed) = false /\ nullish (Parsed.picture parsed) = false
    /\ (magic_calls "Bearer t0k3n" "t0k3n" ++ [UpsertUser parsed])%list
       = (magic_calls "Bearer t0k3n" token ++ [UpsertUser parsed])%list.
Proof.
  cbv zeta. split; [reflexivity|].
  apply (login_upserts_only_verified (example_http (JObj [("type", JStr "magic")]))
           (example_account (example_metadata "alice@example.org") None) []);
    [reflexivity|].
  simpl. auto.
Defined.

Lemma login_success_witness :
  let env := example_account (example_metadata "alice@example.org") None in
  let body :=
    JObj [("type", JStr "github");
          ("data", JObj [("oauth",
                          JObj [("userInfo", JObj [("name", JStr "Alice")]);
                                ("userHandle", JStr "alice-gh")])])] in
  let parsed := {| Parsed.name := Some (JStr "Alice"); Parsed.picture := Some (JStr "");
                   Parsed.issuer := Some "did:ethr:0x01";
                   Parsed.email := Some "alice@example.org";
                   Parsed.github := Some (Some (JStr "alice-gh"));
                   Parsed.publicAddress := Some "0x01" |} in
  userLoginPost (example_http body) env []
  = (Normal {| reply_body := JObj [("issuer", JStr "did:ethr:0x01")];
               reply_status := 200 |},
     ([] ++ magic_calls "Bearer t0k3n" "t0k3n" ++ [UpsertUser parsed])%list).
Proof.
  intros env body parsed.
  apply (login_success (example_http body) env [] body "t0k3n"
           (example_metadata "alice@example.org") parsed
           {| _id := "u1"; issuer := "did:ethr:0x01" |}); reflexivity.
Defined.

(** ** [userTokensPost] *)

Section Tokens.

Context {Key : Type}.
Variable JWT_sign : JWTPayload -> string -> Completion string.
Variable JWT_ISSUER : string.
Variable Date_now : Z.

Implicit Types (request : Http.request) (env : AccountEnv Key) (log : list Call).

Lemma valid_name (name : Value) :
  negb (ToBoolean name) || negb (is_string name) = false
  <-> exists s, name = Some (JStr s) /\ s <> "".
Proof.
  destruct name as [[| | |s| |]|]; simpl;
    try (split; [discriminate|intros (s' & H & _); discriminate]);
    try (split; [destruct b; discriminate|intros (s' & H & _); discriminate]);
    try (split; [destruct (negb (n =? 0)); discriminate|intros (s' & H & _); discriminate]).
  rewrite orb_false_r, negb_false_iff, negb_true_iff, String.eqb_neq.
  split; [eauto|]. now intros (s' & [= <-] & H).
Qed.

(** [userTokensPost], step by step. *)
Lemma userTokensPost_run request env log :
  userTokensPost JWT_sign JWT_ISSUER Date_now request env log =
  match Http.json request with
  | Throw e => (Throw e, log)
  | Normal body =>
      match get_prop (Some body) "name" with
      | Throw e => (Throw e, log)
      | Normal name =>
          if negb (ToBoolean name) || negb (is_string name)
          then (Throw (Error_with_status "invalid name" 400), log)
          else
            let payload := {| sub := issuer (user (Http.auth request));
                              iss := JWT_ISSUER; iat := Date_now;
                              payload_name := name |} in
            match JWT_sign payload (SALT env) with
            | Throw e => (Throw e, (log ++ [JWTSign payload (SALT env)])%list)
            | Normal secret =>
                let key := {| key_user := _id (user (Http.auth request));
                              key_name := name; secret := secret |} in
                match db_createKey env key with
                | Throw e =>
                    (Throw e, (log ++ [JWTSign payload (SALT env); CreateKey key])%list)
                | Normal k =>
                    (Normal {| reply_body := k; reply_status := 201 |},
                     (log ++ [JWTSign payload (SALT env); CreateKey key])%list)
                end
            end
      end
  end.
Proof.
  unfold userTokensPost, eff_bind, eff_call, eff_lift, eff_throw, eff_ret. cbv zeta.
  destruct (Http.json request) as [body|e]; [|reflexivity].
  destruct (get_prop (Some body) "name") as [name|e]; [|reflexivity].
  destruct (negb (ToBoolean name) || negb (is_string name)); [reflexivity|].
  destruct (JWT_sign _ _) as [secret|e]; [|reflexivity].
  destruct (db_createKey env _); now rewrite <- app_assoc.
Qed.

(** X12. [userTokensPost] signs nothing and creates no key unless the
    [name] of the body is a string that is not empty: the log is left as
    it was exactly when it is not.  A name that is missing, empty or not a
    string is answered with [invalid name] and status 400; a body that is
    [null] with the [TypeError] of reading its name, which has no status. *)
Theorem token_needs_a_name request env log :
  let result := userTokensPost JWT_sign JWT_ISSUER Date_now request env log in
  (snd result = log <->
   ~ exists body s, Http.json request = Normal body
       /\ get_prop (Some body) "name" = Normal (Some (JStr s)) /\ s <> "")
  /\ (forall body name, Http.json request = Normal body ->
      get_prop (Some body) "name" = Normal name ->
      (forall s, name = Some (JStr s) -> s = "") ->
      result = (Throw (Error_with_status "invalid name" 400), log))
  /\ (Http.json request = Normal JNull ->
      result = (Throw TypeError, log) /\ status TypeError = None).
Proof.
  cbv zeta. rewrite userTokensPost_run. cbv zeta. split; [|split].
  - destruct (Http.json request) as [body|e] eqn:Hjson.
    2:{ split; [|reflexivity]. intros _ (body & s & H & _). discriminate. }
    destruct (get_prop (Some body) "name") as [name|e] eqn:Hg.
    2:{ split; [|reflexivity]. intros _ (b & s & [= <-] & H & _). congruence. }
    destruct (negb (ToBoolean name) || negb (is_string name)) eqn:Hn.
    + split; [|reflexivity]. intros _ (b & s & [= <-] & H & Hs).
      assert (name = Some (JStr s)) as -> by congruence.
      assert (negb (ToBoolean (Some (JStr s))) || negb (is_string (Some (JStr s))) = false)
        as Hv by (apply valid_name; eauto).
      congruence.
    + apply valid_name in Hn as (s & -> & Hs). split.
      * intros Hlog. exfalso.
        destruct (JWT_sign _ _) as [secret|e]; [destruct (db_createKey env _)|];
          simpl in Hlog; rewrite <- (app_nil_r log) in Hlog at 2;
          apply app_inv_head in Hlog; discriminate.
      * intros Hno. exfalso. apply Hno. exists body, s. auto.
  - intros body name -> -> Hs.
    destruct (negb (ToBoolean name) || negb (is_string name)) eqn:Hn; [reflexivity|].
    apply valid_name in Hn as (s & -> & Hne). now specialize (Hs s eq_refl).
  - intros ->. split; reflexivity.
Qed.

(** X13. For a body whose [name] is a string that is not empty,
    [userTokensPost] signs a token whose subject is the caller's issuer,
    whose issuer is [JWT_ISSUER], whose time is the clock's and whose name
    is the body's, with the environment's salt, and then creates one key
    for the caller's id, with that name and the signature as its secret; it
    answers with the key and status 201.  If signing fails no key is
    created. *)
Theorem token_key_is_the_callers request env log (body : JSON) (s : string) :
  Http.json request = Normal body ->
  get_prop (Some body) "name" = Normal (Some (JStr s)) ->
  s <> "" ->
  let result := userTokensPost JWT_sign JWT_ISSUER Date_now request env log in
  let payload := {| sub := issuer (user (Http.auth request)); iss := JWT_ISSUER;
                    iat := Date_now; payload_name := Some (JStr s) |} in
  (forall e, JWT_sign payload (SALT env) = Throw e ->
     result = (Throw e, (log ++ [JWTSign payload (SALT env)])%list))
  /\ (forall sig, JWT_sign payload (SALT env) = Normal sig ->
      let key := {| key_user := _id (user (Http.auth request));
                    key_name := Some (JStr s); secret := sig |} in
      (forall e, db_createKey env key = Throw e ->
         result = (Throw e, (log ++ [JWTSign payload (SALT env); CreateKey key])%list))
      /\ (forall k, db_createKey env key = Normal k ->
          result = (Normal {| reply_body := k; reply_status := 201 |},
                    (log ++ [JWTSign payload (SALT env); CreateKey key])%list))).
Proof.
  intros Hjson Hname Hs. cbv zeta. rewrite userTokensPost_run. cbv zeta.
  rewrite Hjson, Hname.
  assert (negb (ToBoolean (Some (JStr s))) || negb (is_string (Some (JStr s))) = false)
    as -> by (apply valid_name; eauto).
  split.
  - intros e ->. reflexivity.
  - intros sig ->. split; [intros e ->|intros k ->]; reflexivity.
Qed.

End Tokens.

Lemma token_needs_a_name_witness :
  userTokensPost example_sign "web3-storage" 1635724800000
    (example_http (JObj [("name", JNum 7)])) (example_account (example_metadata "a@b") None) []
  = (Throw (Error_with_status "invalid name" 400), []).
Proof.
  apply (proj1 (proj2 (token_needs_a_name example_sign "web3-storage" 1635724800000
                         (example_http (JObj [("name", JNum 7)]))
                         (example_account (example_metadata "a@b") None) []))
           (JObj [("name", JNum 7)]) (Some (JNum 7))); [reflexivity|reflexivity|].
  intros s Hs. discriminate Hs.
Defined.

Lemma token_key_is_the_callers_witness :
  userTokensPost example_sign "web3-storage" 1635724800000
    (example_http (JObj [("name", JStr "laptop")]))
    (example_account (example_metadata "a@b") None) []
  = (Normal {| reply_body := "key:signed:did:ethr:0x01:salt"; reply_status := 201 |},
     ([] ++ [JWTSign {| sub := "did:ethr:0x01"; iss := "web3-storage";
                        iat := 1635724800000; payload_name := Some (JStr "laptop") |}
               "salt";
             CreateKey {| key_user := "u1"; key_name := Some (JStr "laptop");
                          secret := "signed:did:ethr:0x01:salt" |}])%list).
Proof.
  destruct (token_key_is_the_callers example_sign "web3-storage" 1635724800000
              (example_http (JObj [("name", JStr "laptop")]))
              (example_account (example_metadata "a@b") None) []
              (JObj [("name", JStr "laptop")]) "laptop" eq_refl eq_refl)
    as (_ & Hsigned); [discriminate|].
  destruct (Hsigned "signed:did:ethr:0x01:salt" eq_refl) as (_ & Hkey).
  apply Hkey. reflexivity.
Defined.

(** ** [userUploadsDelete] *)

(** X14. [userUploadsDelete] asks the store once, for the caller's own id
    and the [cid] of the route, whatever comes of it.  It answers with what
    the store resolved to when that is truthy, and throws
    [HTTPError('Upload not found', 404)] when it is [undefined], [null],
    [false], zero or the empty string, so a response never has a falsy
    body; what the store throws is thrown on. *)
Theorem delete_found_or_404 {Key : Type} (HTTPError : string -> Z -> JSError)
    (request : Http.request) (env : AccountEnv Key) (log : list Call) :
  let userId := _id (user (Http.auth request)) in
  let result := userUploadsDelete HTTPError request env log in
  snd result = (log ++ [DeleteUpload userId (Http.cid request)])%list
  /\ (forall reply, fst result = Normal reply <->
        db_deleteUpload env userId (Http.cid request) = Normal (reply_body reply)
        /\ ToBoolean (reply_body reply) = true /\ reply_status reply = 200)
  /\ (forall res, db_deleteUpload env userId (Http.cid request) = Normal res ->
      ToBoolean res = false ->
      fst result = Throw (HTTPError "Upload not found" 404))
  /\ (forall e, db_deleteUpload env userId (Http.cid request) = Throw e ->
      fst result = Throw e).
Proof.
  cbv zeta. unfold userUploadsDelete, eff_bind, eff_call, eff_throw, eff_ret. cbv zeta.
  destruct (db_deleteUpload env _ _) as [res|e] eqn:Hdb.
  - destruct (ToBoolean res) eqn:Hres; simpl.
    + split; [reflexivity|]. split; [|split].
      * intros [body st]. simpl. split.
        -- intros [= <- <-]. auto.
        -- intros ([= <-] & _ & ->). reflexivity.
      * intros res' [= <-]. congruence.
      * discriminate.
    + split; [reflexivity|]. split; [|split].
      * intros [body st]. simpl. split; [discriminate|].
        intros ([= <-] & Hb & _). congruence.
      * reflexivity.
      * discriminate.
  - simpl. split; [reflexivity|]. split; [|split].
    + intros reply. split; [discriminate|]. intros (H & _). discriminate.
    + discriminate.
    + now intros e' [= <-].
Qed.

Lemma delete_found_or_404_witness :
  userUploadsDelete example_HTTPError (example_http JNull)
    (example_account (example_metadata "a@b") None) []
  = (Throw {| message := "Upload not found"; status := Some 404 |},
     [DeleteUpload "u1" "bafy1"]).
Proof.
  destruct (delete_found_or_404 example_HTTPError (example_http JNull)
              (example_account (example_metadata "a@b") None) [])
    as (Hlog & _ & Hmissing & _).
  specialize (Hmissing None eq_refl eq_refl).
  destruct (userUploadsDelete example_HTTPError (example_http JNull)
              (example_account (example_metadata "a@b") None) []) as [r l].
  simpl in Hlog, Hmissing. now subst.
Defined.

(** ** The subscription form *)

Lemma subscribe_sent (API : string) (fetch : string -> Subscribe.FetchInit -> Completion Z)
    (st : Subscribe.State) :
  fst (Subscribe.subscribe API fetch st)
  = [Subscribe.Fetch (API +:+ "/blog/subscription")
       {| Subscribe.method := "POST"; Subscribe.Content_Type := "application/json";
          Subscribe.body_email := Subscribe.email st |}].
Proof.
  unfold Subscribe.subscribe. cbv zeta.
  destruct (fetch _ _) as [code|e]; [|reflexivity].
  now destruct (negb (code =? 200) && negb (code =? 202)).
Qed.

Lemma subscribe_resolved (API : string) (fetch : string -> Subscribe.FetchInit -> Completion Z)
    (st : Subscribe.State) :
  let answer := fetch (API +:+ "/blog/subscription")
                  {| Subscribe.method := "POST";
                     Subscribe.Content_Type := "application/json";
                     Subscribe.body_email := Subscribe.email st |} in
  ((answer = Normal 200 \/ answer = Normal 202) ->
   snd (Subscribe.subscribe API fetch st) = Normal tt)
  /\ (~ (answer = Normal 200 \/ answer = Normal 202) ->
      exists e, snd (Subscribe.subscribe API fetch st) = Throw e).
Proof.
  cbv zeta. unfold Subscribe.subscribe. cbv zeta.
  destruct (fetch _ _) as [code|e].
  - destruct (negb (code =? 200) && negb (code =? 202)) eqn:Hc; simpl; split.
    + intros [[= ->] | [= ->]]; discriminate Hc.
    + eauto.
    + reflexivity.
    + intros Hno. exfalso. apply Hno.
      apply andb_false_iff in Hc as [Hc|Hc]; apply negb_false_iff, Z.eqb_eq in Hc;
        subst; auto.
  - split; [intros [H|H]; discriminate H|eauto].
Qed.

Lemma classic_answer (fetch : string -> Subscribe.FetchInit -> Completion Z)
    (API : string) (st : Subscribe.State) :
  let answer := fetch (API +:+ "/blog/subscription")
                  {| Subscribe.method := "POST";
                     Subscribe.Content_Type := "application/json";
                     Subscribe.body_email := Subscribe.email st |} in
  (answer = Normal 200 \/ answer = Normal 202)
  \/ ~ (answer = Normal 200 \/ answer = Normal 202).
Proof.
  cbv zeta. destruct (fetch _ _) as [code|e].
  - destruct (Z.eq_dec code 200) as [->|H1]; [auto|].
    destruct (Z.eq_dec code 202) as [->|H2]; [auto|].
    right. intros [[= H]|[= H]]; contradiction.
  - right. intros [H|H]; discriminate H.
Qed.

(** X15. A submit while a submission is pending does nothing but prevent
    the default: no request is sent and the state is not touched.  Any
    other submit first sets the status to [pending] and then sends exactly
    one request: a POST of JSON to [API + '/blog/subscription'] that
    carries the email of the form. *)
Theorem subscribe_sends_one_request (API : string)
    (fetch : string -> Subscribe.FetchInit -> Completion Z) (st : Subscribe.State) :
  (Subscribe.status st = "pending" ->
   Subscribe.onSubmit API fetch st = [Subscribe.PreventDefault])
  /\ (Subscribe.status st <> "pending" ->
      exists rest,
        Subscribe.onSubmit API fetch st
        = Subscribe.PreventDefault :: Subscribe.SetStatus "pending"
          :: Subscribe.Fetch (API +:+ "/blog/subscription")
               {| Subscribe.method := "POST";
                  Subscribe.Content_Type := "application/json";
                  Subscribe.body_email := Subscribe.email st |}
          :: rest
        /\ forall url init, ~ In (Subscribe.Fetch url init) rest).
Proof.
  unfold Subscribe.onSubmit. split.
  - intros ->. reflexivity.
  - intros Hne. apply String.eqb_neq in Hne. rewrite Hne.
    pose proof (subscribe_sent API fetch st) as Hsent.
    destruct (Subscribe.subscribe API fetch st) as [sent [u|e]]; simpl in Hsent;
      subst sent; simpl; eexists; (split; [reflexivity|]);
      intros url init Hin; simpl in Hin;
      repeat (destruct Hin as [Hin|Hin]; [discriminate Hin|]); exact Hin.
Qed.

(** The state a submit ends in. *)
Lemma submit_result (API : string)
    (fetch : string -> Subscribe.FetchInit -> Completion Z) (st : Subscribe.State) :
  Subscribe.status st <> "pending" ->
  let answer := fetch (API +:+ "/blog/subscription")
                  {| Subscribe.method := "POST";
                     Subscribe.Content_Type := "application/json";
                     Subscribe.body_email := Subscribe.email st |} in
  let st' := Subscribe.after st (Subscribe.onSubmit API fetch st) in
  ((answer = Normal 200 \/ answer = Normal 202) ->
   st' = {| Subscribe.status := "success"; Subscribe.errorMsg := Subscribe.errorMsg st;
            Subscribe.disabled := Subscribe.disabled st;
            Subscribe.email := Subscribe.email st |})
  /\ (~ (answer = Normal 200 \/ answer = Normal 202) ->
      st' = {| Subscribe.status := "error";
               Subscribe.errorMsg := Subscribe.failure_message;
               Subscribe.disabled := false;
               Subscribe.email := Subscribe.email st |}).
Proof.
  intros Hne. cbv zeta. unfold Subscribe.onSubmit.
  apply String.eqb_neq in Hne. rewrite Hne.
  pose proof (subscribe_sent API fetch st) as Hsent.
  destruct (subscribe_resolved API fetch st) as [Hok Hko].
  destruct (Subscribe.subscribe API fetch st) as [sent [u|e]]; simpl in Hsent, Hok, Hko;
    subst sent; split; intros H.
  - reflexivity.
  - destruct (Hko H) as (e & He). discriminate He.
  - specialize (Hok H). discriminate Hok.
  - reflexivity.
Qed.

(** X16. A submit that is not stopped by a pending one ends in [success]
    exactly when the request was answered with status 200 or 202, the error
    message being left as it was; on any other status, and when the request
    itself fails, it ends in [error] with the fixed message and the button
    enabled.  It never leaves the status [pending], and never touches the
    email. *)
Theorem subscribe_outcome (API : string)
    (fetch : string -> Subscribe.FetchInit -> Completion Z) (st : Subscribe.State) :
  Subscribe.status st <> "pending" ->
  let answer := fetch (API +:+ "/blog/subscription")
                  {| Subscribe.method := "POST";
                     Subscribe.Content_Type := "application/json";
                     Subscribe.body_email := Subscribe.email st |} in
  let st' := Subscribe.after st (Subscribe.onSubmit API fetch st) in
  ((answer = Normal 200 \/ answer = Normal 202) ->
   st' = {| Subscribe.status := "success"; Subscribe.errorMsg := Subscribe.errorMsg st;
            Subscribe.disabled := Subscribe.disabled st;
            Subscribe.email := Subscribe.email st |})
  /\ (~ (answer = Normal 200 \/ answer = Normal 202) ->
      st' = {| Subscribe.status := "error";
               Subscribe.errorMsg := Subscribe.failure_message;
               Subscribe.disabled := false;
               Subscribe.email := Subscribe.email st |}).
Proof. exact (submit_result API fetch st). Qed.

Lemma subscribe_outcome_witness :
  let fetch := fun (_ : string) (_ : Subscribe.FetchInit) => Normal (A := Z) 500 in
  Subscribe.status Subscribe.initial <> "pending"
  /\ Subscribe.after Subscribe.initial
       (Subscribe.onSubmit "https://api.web3.storage" fetch Subscribe.initial)
     = {| Subscribe.status := "error"; Subscribe.errorMsg := Subscribe.failure_message;
          Subscribe.disabled := false; Subscribe.email := "" |}.
Proof.
  cbv zeta. split; [discriminate|].
  apply (proj2 (subscribe_outcome "https://api.web3.storage"
                  (fun _ _ => Normal 500) Subscribe.initial ltac:(discriminate))).
  intros [H|H]; discriminate H.
Defined.

(** X17. Whatever the user does, from the first render on (submits, however
    they are answered, and edits of the email, in any order), the submit
    button is never disabled, the status is the empty string, [success] or
    [error], and the error message is empty or the fixed message; and the
    error message, once shown, is never cleared again, not even by a later
    success. *)
Theorem subscribe_invariants (API : string) (actions more : list Subscribe.Action) :
  let st := fold_left (Subscribe.handle API) actions Subscribe.initial in
  let st' := fold_left (Subscribe.handle API) more st in
  Subscribe.disabled st = false
  /\ In (Subscribe.status st) [""; "success"; "error"]
  /\ (Subscribe.errorMsg st = "" \/ Subscribe.errorMsg st = Subscribe.failure_message)
  /\ (Subscribe.errorMsg st = Subscribe.failure_message ->
      Subscribe.errorMsg st' = Subscribe.failure_message).
Proof.
  cbv zeta.
  assert (forall st a,
            Subscribe.status st <> "pending" ->
            let st' := Subscribe.handle API st a in
            Subscribe.status st' <> "pending"
            /\ (Subscribe.disabled st = false -> Subscribe.disabled st' = false)
            /\ (In (Subscribe.status st) [""; "success"; "error"] ->
                In (Subscribe.status st') [""; "success"; "error"])
            /\ (Subscribe.errorMsg st' = Subscribe.errorMsg st
                \/ Subscribe.errorMsg st' = Subscribe.failure_message)) as Hstep.
  { intros st [fetch|v] Hne; cbv zeta; cbn [Subscribe.handle].
    - destruct (submit_result API fetch st Hne) as [Hok Hko]. cbv zeta in Hok, Hko.
      destruct (classic_answer fetch API st) as [H|H].
      + rewrite (Hok H). simpl. repeat split; auto; discriminate.
      + rewrite (Hko H). simpl. repeat split; auto; discriminate.
    - unfold Subscribe.after. simpl. repeat split; auto. }
  assert (forall acts st,
            Subscribe.status st <> "pending" ->
            let st' := fold_left (Subscribe.handle API) acts st in
            Subscribe.status st' <> "pending"
            /\ (Subscribe.disabled st = false -> Subscribe.disabled st' = false)
            /\ (In (Subscribe.status st) [""; "success"; "error"] ->
                In (Subscribe.status st') [""; "success"; "error"])
            /\ ((Subscribe.errorMsg st = "" \/ Subscribe.errorMsg st = Subscribe.failure_message) ->
                (Subscribe.errorMsg st' = "" \/ Subscribe.errorMsg st' = Subscribe.failure_message))
            /\ (Subscribe.errorMsg st = Subscribe.failure_message ->
                Subscribe.errorMsg st' = Subscribe.failure_message)) as Hrun.
  { induction acts as [|a acts IH]; intros st Hne; cbv zeta; cbn [fold_left].
    - repeat split; auto.
    - destruct (Hstep st a Hne) as (H1 & H2 & H3 & H4). cbv zeta in H1, H2, H3, H4.
      destruct (IH (Subscribe.handle API st a) H1) as (I1 & I2 & I3 & I4 & I5).
      cbv zeta in I1, I2, I3, I4, I5.
      split; [assumption|]. split; [auto|]. split; [auto|]. split.
      + intros H. apply I4. destruct H4 as [-> | ->]; auto.
      + intros H. apply I5. destruct H4 as [-> | ->]; auto. }
  destruct (Hrun actions Subscribe.initial ltac:(discriminate)) as (R1 & R2 & R3 & R4 & _).
  cbv zeta in R1, R2, R3, R4.
  destruct (Hrun more _ R1) as (_ & _ & _ & _ & M5). cbv zeta in M5.
  repeat split; auto. apply R3. simpl. auto.
Qed.

(** ** The accordion *)

(** X18. An accordion starts with [active] set to [false] whatever its
    props, also with [multiple], because the constructor tests
    [this.multiple] and not [this.props.multiple].  So in [multiple] mode a
    toggle on a fresh accordion logs the id and throws calling
    [false.includes]: it hands no update to [setState], and no section is
    ever opened. *)
Theorem accordion_multiple_never_opens (props : Accordion.Props) (id : string) :
  Accordion.multiple props = true ->
  Accordion.active (Accordion.constructor props) = Accordion.AFalse
  /\ Accordion.setActiveSections props (Accordion.constructor props) id
     = ([id], Throw Accordion.NotCallable)
  /\ forall ids, ids <> [] ->
       Accordion.toggles props (Accordion.constructor props) ids
       = Throw Accordion.NotCallable.
Proof.
  intros Hm. split; [reflexivity|]. split.
  - unfold Accordion.setActiveSections. now rewrite Hm.
  - intros [|i ids] Hne; [congruence|]. simpl.
    unfold Accordion.toggle, Accordion.setActiveSections. now rewrite Hm.
Qed.

Lemma accordion_multiple_never_opens_witness :
  Accordion.multiple {| Accordion.multiple := true |} = true
  /\ Accordion.toggles {| Accordion.multiple := true |}
       (Accordion.constructor {| Accordion.multiple := true |}) ["faq-1"; "faq-2"]
     = Throw Accordion.NotCallable.
Proof.
  split; [reflexivity|].
  apply (accordion_multiple_never_opens {| Accordion.multiple := true |} "faq-1");
    [reflexivity|discriminate].
Defined.

Lemma single_toggle (props : Accordion.Props) (st : Accordion.State) (id : string) :
  Accordion.multiple props = false ->
  Accordion.toggle props st id
  = Normal {| Accordion.active :=
                if Accordion.is_id (Accordion.active st) id
                then Accordion.AFalse else Accordion.AString id;
              Accordion.childCount := Accordion.childCount st |}.
Proof.
  intros Hm. unfold Accordion.toggle, Accordion.setActiveSections. rewrite Hm.
  now destruct (Accordion.is_id (Accordion.active st) id).
Qed.

(** X19. Without [multiple], a toggle never throws and leaves at most one
    section open: the section toggled, or none when that section was the
    open one.  Toggling the same section twice gives back the state when
    it was closed or had only that section open; and after any toggles
    from a fresh accordion [active] is [false] or one of the ids toggled,
    never an array. *)
Theorem accordion_single_toggle (props : Accordion.Props) (st : Accordion.State)
    (id : string) :
  Accordion.multiple props = false ->
  (exists st1 st2,
     Accordion.toggle props st id = Normal st1
     /\ Accordion.toggle props st1 id = Normal st2
     /\ Accordion.childCount st1 = Accordion.childCount st
     /\ (Accordion.active st = Accordion.AString id ->
         Accordion.active st1 = Accordion.AFalse)
     /\ (Accordion.active st <> Accordion.AString id ->
         Accordion.active st1 = Accordion.AString id)
     /\ (Accordion.active st = Accordion.AFalse
         \/ Accordion.active st = Accordion.AString id -> st2 = st))
  /\ forall ids, exists st',
       Accordion.toggles props (Accordion.constructor props) ids = Normal st'
       /\ (Accordion.active st' = Accordion.AFalse
           \/ exists i, In i ids /\ Accordion.active st' = Accordion.AString i).
Proof.
  intros Hm. split.
  - do 2 eexists. split; [now apply single_toggle|].
    split; [now apply single_toggle|]. cbn [Accordion.active Accordion.childCount].
    destruct st as [a n]. cbn [Accordion.active Accordion.childCount].
    split; [reflexivity|]. split; [|split].
    + intros ->. simpl. now rewrite String.eqb_refl.
    + intros Hne. destruct a as [|s|l]; simpl; try reflexivity.
      destruct (String.eqb s id) eqn:Hs; [|reflexivity].
      apply String.eqb_eq in Hs. congruence.
    + intros [-> | ->]; simpl; rewrite String.eqb_refl; reflexivity.
  - assert (forall ids st0,
              exists st', Accordion.toggles props st0 ids = Normal st'
                /\ (Accordion.active st' = Accordion.active st0
                    \/ Accordion.active st' = Accordion.AFalse
                    \/ exists i, In i ids /\ Accordion.active st' = Accordion.AString i))
      as Hrun.
    { induction ids as [|i ids IH]; intros st0; simpl.
      - exists st0. auto.
      - rewrite (single_toggle props st0 i Hm). cbn [cbind].
        destruct (IH {| Accordion.active :=
                          if Accordion.is_id (Accordion.active st0) i
                          then Accordion.AFalse else Accordion.AString i;
                        Accordion.childCount := Accordion.childCount st0 |})
          as (st' & Hst' & Hact).
        exists st'. split; [exact Hst'|]. cbn [Accordion.active] in Hact.
        destruct Hact as [Hact | [Hact | (j & Hj & Hact)]].
        + rewrite Hact. destruct (Accordion.is_id _ _); [auto|]. right. right. eauto.
        + auto.
        + right. right. eauto. }
    intros ids. destruct (Hrun ids (Accordion.constructor props)) as (st' & Hst' & Hact).
    exists st'. split; [exact Hst'|].
    destruct Hact as [Hact | [Hact | Hact]]; auto.
Qed.

Lemma accordion_single_toggle_witness :
  Accordion.multiple {| Accordion.multiple := false |} = false
  /\ exists st',
       Accordion.toggles {| Accordion.multiple := false |}
         (Accordion.constructor {| Accordion.multiple := false |}) ["a"; "b"; "b"; "c"]
       = Normal st'
       /\ (Accordion.active st' = Accordion.AFalse
           \/ exists i, In i ["a"; "b"; "b"; "c"]
                /\ Accordion.active st' = Accordion.AString i).
Proof.
  split; [reflexivity|].
  apply (proj2 (accordion_single_toggle {| Accordion.multiple := false |}
                  (Accordion.constructor {| Accordion.multiple := false |}) "a" eq_refl)).
Defined.

Lemma existsb_eqb_In (id : string) (ids : list string) :
  existsb (String.eqb id) ids = true <-> In id ids.
Proof.
  rewrite existsb_exists. split.
  - intros (x & Hx & He). apply String.eqb_eq in He. now subst.
  - intros H. exists id. split; [assumption|apply String.eqb_refl].
Qed.

Lemma filter_absent (id : string) (ids : list string) :
  ~ In id ids -> List.filter (fun _id => negb (String.eqb _id id)) ids = ids.
Proof.
  induction ids as [|x ids IH]; intros Hn; simpl; [reflexivity|].
  destruct (String.eqb x id) eqn:Hx.
  - apply String.eqb_eq in Hx. subst. exfalso. apply Hn. now left.
  - simpl. f_equal. apply IH. intros H. apply Hn. now right.
Qed.

(** X20. With [multiple] and an array for [active], a toggle never throws:
    it appends the id when the array does not hold it and removes every
    occurrence when it does.  So the toggled id changes sides, every other
    id stays as it was, an array without duplicates stays without, and
    toggling an id that was absent twice gives the array back. *)
Theorem accordion_multiple_on_array (props : Accordion.Props) (st : Accordion.State)
    (id : string) (ids : list string) :
  Accordion.multiple props = true ->
  Accordion.active st = Accordion.AArray ids ->
  exists ids',
    Accordion.toggle props st id
    = Normal {| Accordion.active := Accordion.AArray ids';
                Accordion.childCount := Accordion.childCount st |}
    /\ (In id ids' <-> ~ In id ids)
    /\ (forall j, j <> id -> (In j ids' <-> In j ids))
    /\ (List.NoDup ids -> List.NoDup ids')
    /\ (~ In id ids ->
        ids' = (ids ++ [id])%list
        /\ Accordion.toggle props
             {| Accordion.active := Accordion.AArray ids';
                Accordion.childCount := Accordion.childCount st |} id
           = Normal st).
Proof.
  intros Hm Hact. destruct st as [a n]. simpl in Hact. subst a.
  unfold Accordion.toggle, Accordion.setActiveSections. rewrite Hm.
  cbn [Accordion.active Accordion.childCount Accordion.includes cbind snd].
  destruct (existsb (String.eqb id) ids) eqn:Hin.
  - apply existsb_eqb_In in Hin.
    exists (List.filter (fun _id => negb (String.eqb _id id)) ids).
    split; [reflexivity|]. split; [|split; [|split]].
    + rewrite filter_In, negb_true_iff, String.eqb_neq. tauto.
    + intros j Hj. rewrite filter_In, negb_true_iff, String.eqb_neq. tauto.
    + apply List.NoDup_filter.
    + tauto.
  - assert (~ In id ids) as Hnot.
    { intros H. apply existsb_eqb_In in H. congruence. }
    exists (ids ++ [id])%list.
    split; [reflexivity|]. split; [|split; [|split]].
    + rewrite in_app_iff. simpl. tauto.
    + intros j Hj. rewrite in_app_iff. simpl. split; [|tauto].
      intros [H|[H|[]]]; [assumption|congruence].
    + intros Hnd. apply List.NoDup_app; [assumption| |].
      * constructor; [simpl; tauto|constructor].
      * intros x Hx [<-|[]]. contradiction.
    + intros _. split; [reflexivity|].
      assert (existsb (String.eqb id) (ids ++ [id]) = true) as ->
        by (apply existsb_eqb_In, in_app_iff; simpl; auto).
      cbn [Accordion.flush Accordion.remove cbind Accordion.active
           Accordion.childCount].
      rewrite List.filter_app, (filter_absent id ids Hnot). simpl.
      rewrite String.eqb_refl. simpl. now rewrite app_nil_r.
Qed.

Lemma accordion_multiple_on_array_witness :
  let st := {| Accordion.active := Accordion.AArray ["a"; "b"];
               Accordion.childCount := 2 |} in
  Accordion.toggle {| Accordion.multiple := true |} st "b"
  = Normal {| Accordion.active := Accordion.AArray ["a"]; Accordion.childCount := 2 |}.
Proof.
  cbv zeta.
  destruct (accordion_multiple_on_array {| Accordion.multiple := true |}
              {| Accordion.active := Accordion.AArray ["a"; "b"];
                 Accordion.childCount := 2 |} "b" ["a"; "b"] eq_refl eq_refl)
    as (ids' & Htoggle & _).
  rewrite Htoggle. vm_compute in Htoggle. injection Htoggle as <-. reflexivity.
Defined.
